(** * Typed state proxies of trame-server: a shallow embedding

    This development embeds [trame_server/utils/typed_state.py] and proves
    properties of its three parts:

    - the codecs [DefaultEncoderDecoder] and [CollectionEncoderDecoder];
    - the proxy builder [_build_proxy_cls] with its two front ends
      [state_proxy] and [state_names_proxy];
    - the binder [bind_typed_state_change] and the converters
      [from_dataclass] and [as_dataclass].

    Python objects that are shared and mutated (the field dictionaries, the
    proxy instances, the descriptors) live in an explicit heap addressed by
    references; the trame [State] is a finite map from keys to values.
    Exceptions are explicit results. *)

From Stdlib Require Import ZArith NArith Lia Ascii String List.
From Stdlib Require Import DecimalString DecimalN.
From stdpp Require Import base option list strings gmap.

Local Open Scope string_scope.
Local Open Scope list_scope.

(** ** Python values *)

Scheme All for list.
Scheme All for prod.

(** Exceptions raised by the code or by the library calls it makes.
    [Unmodelled] is not an exception of Python: it is the outcome of a
    library call on an argument outside the cases this development
    describes (a string in a format the library accepts but does not emit,
    the text of a container). Nothing catches it. *)
Inductive exn : Type :=
| TypeError
| ValueError
| IndexError
| KeyError
| AttributeError
| OverflowError
| RuntimeError
| Unmodelled.

(** The outcome of a call that touches no shared object. *)
Inductive outcome (A : Type) : Type :=
| Return (a : A)
| Raised (e : exn).
Arguments Return {A} a.
Arguments Raised {A} e.

(** [datetime.date]. *)
Record date : Type := Date { year : Z; month : Z; day : Z }.

(** [datetime.time]; [tzinfo] is [None] for a naive time and the offset from
    UTC in microseconds for an aware one (a [datetime.timezone]). *)
Record time : Type := Time {
  hour : Z; minute : Z; second : Z; microsecond : Z; tzinfo : option Z
}.

(** [datetime.datetime]: a date and a time of day with its [tzinfo]. *)
Record datetime : Type := Datetime { dt_date : date; dt_time : time }.

(** A finite [decimal.Decimal] as the library keeps it: the sign, the
    coefficient as a string of decimal digits, and the exponent. *)
Record Decimal : Type := mkDecimal {
  dec_sign : bool; dec_int : string; dec_exp : Z
}.

(** The underlying value of an [Enum] member: an [int] or a [str]. *)
Inductive enum_value : Type :=
| EInt (z : Z)
| EStr (s : string).

(** An [Enum] class: its name and its members in definition order, aliases
    left out (a member is the first one with its value). *)
Record EnumMeta : Type := mkEnum {
  enum_name : string;
  enum_members : list (string * enum_value)
}.

(** Python values: what a dataclass field holds and what the state stores.
    [VInstance] is a dataclass instance, its class given by name. *)
Inductive pyval : Type :=
| VNone
| VBool (b : bool)
| VInt (z : Z)
| VStr (s : string)
| VUUID (u : N)
| VEnum (E : EnumMeta) (member : nat)
| VDecimal (d : Decimal)
| VDatetime (dt : datetime)
| VDate (d : date)
| VTime (t : time)
| VList (l : list pyval)
| VDict (items : list (pyval * pyval))
| VInstance (cls : string) (attrs : list (string * pyval)).

(** Declared types of fields. [TListOf t] is [list[t]], [TList] the bare
    [list]; likewise for [dict]. *)
Inductive pytype : Type :=
| TInt
| TStr
| TBool
| TUUID
| TEnum (E : EnumMeta)
| TDecimal
| TDatetime
| TDate
| TTime
| TList
| TListOf (elt : pytype)
| TDict
| TDictOf (key value : pytype).

(** [typing.get_args]. *)
Definition get_args (t : pytype) : list pytype :=
  match t with
  | TListOf e => [e]
  | TDictOf k v => [k; v]
  | _ => []
  end.

(** ** Record schemas *)

(** A dataclass type and its fields as [dataclasses.fields] lists them.
    [f_default] and [f_default_factory] are [None] for [MISSING]; a factory
    is given by the value it returns. *)
Inductive dataclass : Type :=
| Dataclass (dc_name : string) (dc_fields : list Field)
with Field : Type :=
| mkField (f_name : string) (f_type : field_type)
          (f_default : option pyval) (f_default_factory : option pyval)
with field_type : Type :=
| Leaf (ty : pytype)
| Data (dc : dataclass).

Definition dc_name (dc : dataclass) : string :=
  match dc with Dataclass n _ => n end.
Definition dc_fields (dc : dataclass) : list Field :=
  match dc with Dataclass _ fs => fs end.
Definition f_name (f : Field) : string :=
  match f with mkField n _ _ _ => n end.
Definition f_type (f : Field) : field_type :=
  match f with mkField _ t _ _ => t end.
Definition f_default (f : Field) : option pyval :=
  match f with mkField _ _ d _ => d end.
Definition f_default_factory (f : Field) : option pyval :=
  match f with mkField _ _ _ d => d end.

Scheme dataclass_nested_ind := Induction for dataclass Sort Prop
  with Field_nested_ind := Induction for Field Sort Prop
  with field_type_nested_ind := Induction for field_type Sort Prop.

(** ** The codec interface *)

(** [IStateEncoderDecoder]: [encode(obj)] and [decode(obj, obj_type)]. *)
Record IStateEncoderDecoder : Type := {
  encode : pyval -> outcome pyval;
  decode : pyval -> pytype -> outcome pyval
}.

(** [IStateEncoderDecoder.raise_unhandled_type]. *)
Definition raise_unhandled_type {A : Type} (obj : pyval) : outcome A :=
  Raised TypeError.

(** ** Calendar arithmetic of the [datetime] module *)

Section Calendar.
Local Open Scope Z_scope.

Definition is_leap (y : Z) : bool :=
  (y mod 4 =? 0) && (negb (y mod 100 =? 0) || (y mod 400 =? 0)).

Definition days_in_month (y m : Z) : Z :=
  if m =? 2 then (if is_leap y then 29 else 28)
  else if (m =? 4) || (m =? 6) || (m =? 9) || (m =? 11) then 30
  else 31.

Definition days_in_year (y : Z) : Z := if is_leap y then 366 else 365.

(** The days of the years [1] to [n]. *)
Fixpoint days_to_year (n : nat) : Z :=
  match n with
  | O => 0
  | S k => days_to_year k + days_in_year (Z.of_nat n)
  end.

(** The days of the months [1] to [n] of the year [y]. *)
Fixpoint days_to_month (y : Z) (n : nat) : Z :=
  match n with
  | O => 0
  | S k => days_to_month y k + days_in_month y (Z.of_nat n)
  end.

(** [date.toordinal]: the first day of year 1 has ordinal 1. *)
Definition toordinal (d : date) : Z :=
  days_to_year (Z.to_nat (year d - 1))
  + days_to_month (year d) (Z.to_nat (month d - 1))
  + day d.

(** The checks of the constructor of [date]. *)
Definition valid_date (d : date) : bool :=
  (1 <=? year d) && (year d <=? 9999)
  && (1 <=? month d) && (month d <=? 12)
  && (1 <=? day d) && (day d <=? days_in_month (year d) (month d)).

(** Microseconds in a day. *)
Definition day_us : Z := 86400000000.

(** The offset of a [timezone] is strictly between minus and plus one day. *)
Definition valid_tzinfo (tz : option Z) : bool :=
  match tz with
  | Some off => (- day_us <? off) && (off <? day_us)
  | None => true
  end.

(** The checks of the constructor of [time]. *)
Definition valid_time (t : time) : bool :=
  (0 <=? hour t) && (hour t <? 24)
  && (0 <=? minute t) && (minute t <? 60)
  && (0 <=? second t) && (second t <? 60)
  && (0 <=? microsecond t) && (microsecond t <? 1000000)
  && valid_tzinfo (tzinfo t).


(** The time of day in microseconds. *)
Definition time_us (t : time) : Z :=
  ((hour t * 60 + minute t) * 60 + second t) * 1000000 + microsecond t.

Definition time_of_us (us : Z) (tz : option Z) : time :=
  Time (us / 3600000000) (us / 60000000 mod 60) (us / 1000000 mod 60)
       (us mod 1000000) tz.

(** The day after and the day before, [None] outside the years 1 to 9999. *)
Definition next_day (d : date) : option date :=
  if day d <? days_in_month (year d) (month d)
  then Some (Date (year d) (month d) (day d + 1))
  else if month d <? 12 then Some (Date (year d) (month d + 1) 1)
  else if year d <? 9999 then Some (Date (year d + 1) 1 1)
  else None.

Definition prev_day (d : date) : option date :=
  if 1 <? day d then Some (Date (year d) (month d) (day d - 1))
  else if 1 <? month d
  then Some (Date (year d) (month d - 1) (days_in_month (year d) (month d - 1)))
  else if 1 <? year d then Some (Date (year d - 1) 12 31)
  else None.

(** The date and time of day [delta] microseconds later, for a [delta] of
    less than a day either way, which the offset of a [timezone] is;
    [OverflowError] outside the years 1 to 9999. The [tzinfo] is kept. *)
Definition datetime_add (dt : datetime) (delta : Z) : outcome datetime :=
  let us := time_us (dt_time dt) + delta in
  let tz := tzinfo (dt_time dt) in
  if us <? 0 then
    match prev_day (dt_date dt) with
    | Some d => Return (Datetime d (time_of_us (us + day_us) tz))
    | None => Raised OverflowError
    end
  else if day_us <=? us then
    match next_day (dt_date dt) with
    | Some d => Return (Datetime d (time_of_us (us - day_us) tz))
    | None => Raised OverflowError
    end
  else Return (Datetime (dt_date dt) (time_of_us us tz)).

(** [replace(tzinfo=tz)]. *)
Definition replace_tzinfo (dt : datetime) (tz : option Z) : datetime :=
  let t := dt_time dt in
  Datetime (dt_date dt)
           (Time (hour t) (minute t) (second t) (microsecond t) tz).

(** [astimezone(timezone.utc)]. A naive [datetime] is taken to be in the
    local time zone of the process, whose offset at that local time is
    [local]. *)
Definition astimezone_utc (local : datetime -> Z) (dt : datetime)
  : outcome datetime :=
  let myoffset := match tzinfo (dt_time dt) with
                  | Some off => off
                  | None => local dt
                  end in
  match datetime_add dt (- myoffset) with
  | Return utc => Return (replace_tzinfo utc (Some 0))
  | Raised e => Raised e
  end.

(** The microseconds from the start of year 1 to the local date and time,
    less the offset. *)
Definition instant (dt : datetime) (off : Z) : Z :=
  (toordinal (dt_date dt) - 1) * day_us + time_us (dt_time dt) - off.

Definition date_eqb (a b : date) : bool :=
  (year a =? year b) && (month a =? month b) && (day a =? day b).

Definition hms_eqb (a b : time) : bool :=
  (hour a =? hour b) && (minute a =? minute b) && (second a =? second b)
  && (microsecond a =? microsecond b).

(** [time.__eq__]: with the same offset (or both naive) the fields are
    compared; a naive and an aware time are unequal; otherwise the seconds
    of the day less the offset's whole seconds, then the microseconds. *)
Definition time_eq (a b : time) : bool :=
  match tzinfo a, tzinfo b with
  | None, None => hms_eqb a b
  | Some x, Some y =>
      if x =? y then hms_eqb a b
      else (hour a * 3600 + minute a * 60 + second a - x / 1000000
            =? hour b * 3600 + minute b * 60 + second b - y / 1000000)
           && (microsecond a =? microsecond b)
  | _, _ => false
  end.

(** [datetime.__eq__]: with the same offset (or both naive) the fields are
    compared; a naive and an aware datetime are unequal; otherwise the
    instants. *)
Definition datetime_eq (a b : datetime) : bool :=
  match tzinfo (dt_time a), tzinfo (dt_time b) with
  | None, None => date_eqb (dt_date a) (dt_date b) && hms_eqb (dt_time a) (dt_time b)
  | Some x, Some y =>
      if x =? y
      then date_eqb (dt_date a) (dt_date b) && hms_eqb (dt_time a) (dt_time b)
      else instant a x =? instant b y
  | _, _ => false
  end.

End Calendar.

(** ** Numbers as text *)

Section Text.
Local Open Scope Z_scope.

(** The character of a digit below 16, in lower case. *)
Definition digit_char (d : Z) : ascii :=
  ascii_of_nat (Z.to_nat (if d <? 10 then 48 + d else 87 + d)).

(** The digit a character stands for in the given base, either case. *)
Definition char_digit (base : Z) (c : ascii) : option Z :=
  let n := Z.of_nat (nat_of_ascii c) in
  let d := if (48 <=? n) && (n <? 58) then n - 48
           else if (97 <=? n) && (n <? 103) then n - 87
           else if (65 <=? n) && (n <? 71) then n - 55
           else base in
  if d <? base then Some d else None.

(** [n] in [w] digits, zero padded, in front of [rest]. *)
Fixpoint pad (base : Z) (w : nat) (n : Z) (rest : string) : string :=
  match w with
  | O => rest
  | S w' => pad base w' (n / base) (String (digit_char (n mod base)) rest)
  end.

(** Reads exactly [w] digits after the digits already read as [acc]. *)
Fixpoint digits (base : Z) (w : nat) (acc : Z) (s : string)
  : option (Z * string) :=
  match w with
  | O => Some (acc, s)
  | S w' =>
      match s with
      | String c s' =>
          match char_digit base c with
          | Some d => digits base w' (acc * base + d) s'
          | None => None
          end
      | EmptyString => None
      end
  end.

(** Reads one given character. *)
Definition expect (c : ascii) (s : string) : option string :=
  match s with
  | String c' s' => if Ascii.eqb c' c then Some s' else None
  | EmptyString => None
  end.

(** A natural number in decimal digits, as [str] and [%d] write it, and
    back; [None] for the empty string and for a character that is no
    digit. *)
Definition nat_str (n : Z) : string :=
  NilEmpty.string_of_uint (N.to_uint (Z.to_N n)).

Definition nat_parse (s : string) : option Z :=
  match s with
  | EmptyString => None
  | _ => match NilEmpty.uint_of_string s with
         | Some d => Some (Z.of_N (N.of_uint d))
         | None => None
         end
  end.

(** [str] of an [int], and [%+d]. *)
Definition int_str (z : Z) : string :=
  if z <? 0 then String "-" (nat_str (- z)) else nat_str z.

Definition signed_str (z : Z) : string :=
  if z <? 0 then String "-" (nat_str (- z)) else String "+" (nat_str z).

(** An optional sign and decimal digits. *)
Definition int_parse (s : string) : option Z :=
  match s with
  | String c s' =>
      if Ascii.eqb c "-" then option_map Z.opp (nat_parse s')
      else if Ascii.eqb c "+" then nat_parse s'
      else nat_parse s
  | EmptyString => None
  end.

End Text.

(** ** ISO 8601 text of dates and times *)

Section Isoformat.
Local Open Scope Z_scope.

(** [date.isoformat], in front of [rest]. *)
Definition date_isoformat (d : date) (rest : string) : string :=
  pad 10 4 (year d)
    (String "-" (pad 10 2 (month d) (String "-" (pad 10 2 (day d) rest)))).

(** The offset as [isoformat] writes it: sign, hours and minutes, then the
    seconds if the seconds or the microseconds are not zero, then the
    microseconds if they are not zero. *)
Definition format_offset (tz : option Z) : string :=
  match tz with
  | None => EmptyString
  | Some off =>
      let a := Z.abs off in
      let ss := a / 1000000 mod 60 in
      let us := a mod 1000000 in
      String (if off <? 0 then "-"%char else "+"%char)
        (pad 10 2 (a / 3600000000)
           (String ":" (pad 10 2 (a / 60000000 mod 60)
              (if (ss =? 0) && (us =? 0) then EmptyString
               else String ":" (pad 10 2 ss
                      (if us =? 0 then EmptyString
                       else String "." (pad 10 6 us EmptyString)))))))
  end.

(** [time.isoformat]: the microseconds are written if they are not zero. *)
Definition time_isoformat (t : time) : string :=
  pad 10 2 (hour t)
    (String ":" (pad 10 2 (minute t)
       (String ":" (pad 10 2 (second t)
          (if microsecond t =? 0 then format_offset (tzinfo t)
           else String "." (pad 10 6 (microsecond t)
                  (format_offset (tzinfo t)))))))).

(** [datetime.isoformat(sep)]. *)
Definition datetime_isoformat (sep : ascii) (dt : datetime) : string :=
  date_isoformat (dt_date dt) (String sep (time_isoformat (dt_time dt))).

(** The parsers read the format that [isoformat] writes; [None] for any
    other string. *)
Definition parse_date (s : string) : option (date * string) :=
  match digits 10 4 0 s with
  | Some (y, s) =>
      match expect "-" s with
      | Some s =>
          match digits 10 2 0 s with
          | Some (m, s) =>
              match expect "-" s with
              | Some s =>
                  match digits 10 2 0 s with
                  | Some (d, s) => Some (Date y m d, s)
                  | None => None
                  end
              | None => None
              end
          | None => None
          end
      | None => None
      end
  | None => None
  end.

(** The fraction of a second, if there is one. *)
Definition parse_fraction (s : string) : option (Z * string) :=
  match s with
  | String c s' =>
      if Ascii.eqb c "." then digits 10 6 0 s' else Some (0, s)
  | EmptyString => Some (0, s)
  end.

(** Hours, minutes and seconds, and what follows. *)
Definition parse_hms (s : string) : option (Z * Z * Z * string) :=
  match digits 10 2 0 s with
  | Some (h, s) =>
      match expect ":" s with
      | Some s =>
          match digits 10 2 0 s with
          | Some (m, s) =>
              match expect ":" s with
              | Some s =>
                  match digits 10 2 0 s with
                  | Some (sec, s) => Some (h, m, sec, s)
                  | None => None
                  end
              | None => None
              end
          | None => None
          end
      | None => None
      end
  | None => None
  end.

(** An offset up to the end of the string: nothing, or a sign, hours and
    minutes, then maybe seconds, then maybe microseconds. *)
Definition parse_offset (s : string) : option (option Z) :=
  match s with
  | EmptyString => Some None
  | String c s =>
      if Ascii.eqb c "+" || Ascii.eqb c "-" then
        match digits 10 2 0 s with
        | Some (h, s) =>
            match expect ":" s with
            | Some s =>
                match digits 10 2 0 s with
                | Some (m, s) =>
                    let sgn := if Ascii.eqb c "-" then -1 else 1 in
                    match s with
                    | EmptyString => Some (Some (sgn * ((h * 60 + m) * 60000000)))
                    | String c' s =>
                        if Ascii.eqb c' ":" then
                          match digits 10 2 0 s with
                          | Some (sec, s) =>
                              match parse_fraction s with
                              | Some (us, EmptyString) =>
                                  Some (Some (sgn * (((h * 60 + m) * 60 + sec) * 1000000 + us)))
                              | _ => None
                              end
                          | None => None
                          end
                        else None
                    end
                | None => None
                end
            | None => None
            end
        | None => None
        end
      else None
  end.

Definition parse_time (s : string) : option time :=
  match parse_hms s with
  | Some (h, m, sec, s) =>
      match parse_fraction s with
      | Some (us, s) =>
          match parse_offset s with
          | Some tz => Some (Time h m sec us tz)
          | None => None
          end
      | None => None
      end
  | None => None
  end.

(** [date.fromisoformat]: [TypeError] for an argument that is not a [str],
    [ValueError] for a date that does not exist. *)
Definition date_fromisoformat (obj : pyval) : outcome pyval :=
  match obj with
  | VStr s =>
      match parse_date s with
      | Some (d, EmptyString) =>
          if valid_date d then Return (VDate d) else Raised ValueError
      | _ => Raised Unmodelled
      end
  | _ => Raised TypeError
  end.

(** [time.fromisoformat]. *)
Definition time_fromisoformat (obj : pyval) : outcome pyval :=
  match obj with
  | VStr s =>
      match parse_time s with
      | Some t => if valid_time t then Return (VTime t) else Raised ValueError
      | None => Raised Unmodelled
      end
  | _ => Raised TypeError
  end.

(** [datetime.fromisoformat]: a date, any one character, and a time. *)
Definition datetime_fromisoformat (obj : pyval) : outcome pyval :=
  match obj with
  | VStr s =>
      match parse_date s with
      | Some (d, String _ s') =>
          match parse_time s' with
          | Some t =>
              if valid_date d && valid_time t
              then Return (VDatetime (Datetime d t))
              else Raised ValueError
          | None => Raised Unmodelled
          end
      | _ => Raised Unmodelled
      end
  | _ => Raised TypeError
  end.

End Isoformat.

(** ** [UUID], [Decimal] and [Enum] *)

Section Scalars.
Local Open Scope Z_scope.

(** [str] of a [UUID] with the 128-bit number [u]: 32 hexadecimal digits
    in groups of 8, 4, 4, 4 and 12. *)
Definition UUID_str (u : N) : string :=
  let n := Z.of_N u in
  pad 16 8 (n / 2 ^ 96)
    (String "-" (pad 16 4 (n / 2 ^ 80)
       (String "-" (pad 16 4 (n / 2 ^ 64)
          (String "-" (pad 16 4 (n / 2 ^ 48)
             (String "-" (pad 16 12 n EmptyString)))))))).

(** Reads the form that [str] writes; [None] for any other string. *)
Definition UUID_parse (s : string) : option N :=
  match digits 16 8 0 s with
  | Some (n, s) =>
  match expect "-" s with
  | Some s =>
  match digits 16 4 n s with
  | Some (n, s) =>
  match expect "-" s with
  | Some s =>
  match digits 16 4 n s with
  | Some (n, s) =>
  match expect "-" s with
  | Some s =>
  match digits 16 4 n s with
  | Some (n, s) =>
  match expect "-" s with
  | Some s =>
  match digits 16 12 n s with
  | Some (n, EmptyString) => Some (Z.to_N n)
  | _ => None
  end
  | None => None end
  | None => None end
  | None => None end
  | None => None end
  | None => None end
  | None => None end
  | None => None end
  | None => None end.

(** [n] zeros in front of [rest]. *)
Fixpoint zeros (n : nat) (rest : string) : string :=
  match n with
  | O => rest
  | S n' => String "0" (zeros n' rest)
  end.

(** The slices [s[:n]] and [s[n:]]. *)
Fixpoint take (n : nat) (s : string) : string :=
  match n, s with
  | S n', String c s' => String c (take n' s')
  | _, _ => EmptyString
  end.

Fixpoint drop (n : nat) (s : string) : string :=
  match n, s with
  | S n', String c s' => drop n' s'
  | _, _ => s
  end.

(** [str] of a finite [Decimal]: plain notation when the exponent is not
    positive and the first digit stands less than six places after the
    point, scientific notation with one digit before the point otherwise. *)
Definition Decimal_str (d : Decimal) : string :=
  let _int := dec_int d in
  let len := Z.of_nat (String.length _int) in
  let leftdigits := dec_exp d + len in
  let dotplace :=
    if (dec_exp d <=? 0) && (-6 <? leftdigits) then leftdigits else 1 in
  let exp :=
    if leftdigits =? dotplace then EmptyString
    else String "E" (signed_str (leftdigits - dotplace)) in
  let body :=
    if dotplace <=? 0 then
      String "0" (String "." (zeros (Z.to_nat (- dotplace)) (_int +:+ exp)))
    else if len <=? dotplace then
      _int +:+ zeros (Z.to_nat (dotplace - len)) exp
    else
      take (Z.to_nat dotplace) _int
      +:+ String "." (drop (Z.to_nat dotplace) _int +:+ exp) in
  if dec_sign d then String "-" body else body.

Definition is_digit (c : ascii) : bool :=
  match char_digit 10 c with Some _ => true | None => false end.

(** The longest prefix of decimal digits, and the rest. *)
Fixpoint span_digits (s : string) : string * string :=
  match s with
  | String c s' =>
      if is_digit c
      then let (a, b) := span_digits s' in (String c a, b)
      else (EmptyString, s)
  | EmptyString => (EmptyString, EmptyString)
  end.


(** [str(int(s))] for a string of digits: the leading zeros go, but for the
    last digit. *)
Fixpoint strip_zeros (s : string) : string :=
  match s with
  | String c s' =>
      match s' with
      | EmptyString => s
      | String _ _ => if Ascii.eqb c "0" then strip_zeros s' else s
      end
  | EmptyString => s
  end.

(** The finite numbers the constructor of [Decimal] reads from a string:
    a sign, then digits with maybe a point among them and maybe an
    exponent. The coefficient is [str(int(intpart + fracpart))]. *)
Definition Decimal_parse_unsigned (sign : bool) (s : string) : option Decimal :=
  let (intpart, s) := span_digits s in
  let (fracpart, s) :=
    match s with
    | String c s' =>
        if Ascii.eqb c "." then span_digits s' else (EmptyString, s)
    | EmptyString => (EmptyString, s)
    end in
  let exp :=
    match s with
    | EmptyString => Some 0
    | String c s' =>
        if Ascii.eqb c "E" || Ascii.eqb c "e" then int_parse s' else None
    end in
  match intpart +:+ fracpart, exp with
  | String _ _ as ds, Some exp =>
      Some (mkDecimal sign (strip_zeros ds)
                      (exp - Z.of_nat (String.length fracpart)))
  | _, _ => None
  end.

Definition Decimal_parse (s : string) : option Decimal :=
  match s with
  | String c s' =>
      if Ascii.eqb c "-" then Decimal_parse_unsigned true s'
      else if Ascii.eqb c "+" then Decimal_parse_unsigned false s'
      else Decimal_parse_unsigned false s
  | EmptyString => None
  end.



(** The value of a [Decimal] as a signed coefficient and an exponent. *)
Definition Decimal_number (d : Decimal) : Z * Z :=
  let c := match nat_parse (dec_int d) with Some c => c | None => 0 end in
  (if dec_sign d then - c else c, dec_exp d).

(** Equality of numbers [c1 * 10 ^ e1] and [c2 * 10 ^ e2]. *)
Definition num_eq (x y : Z * Z) : bool :=
  let e := Z.min (snd x) (snd y) in
  fst x * 10 ^ (snd x - e) =? fst y * 10 ^ (snd y - e).

(** The underlying value of a member as a Python value. *)
Definition enum_val (v : enum_value) : pyval :=
  match v with
  | EInt z => VInt z
  | EStr s => VStr s
  end.

Definition enum_value_eqb (a b : enum_value) : bool :=
  match a, b with
  | EInt x, EInt y => x =? y
  | EStr s, EStr t => String.eqb s t
  | _, _ => false
  end.

Fixpoint members_eqb (a b : list (string * enum_value)) : bool :=
  match a, b with
  | [], [] => true
  | (n, v) :: a', (m, w) :: b' =>
      String.eqb n m && enum_value_eqb v w && members_eqb a' b'
  | _, _ => false
  end.

(** Two [Enum] classes are the same class. *)
Definition EnumMeta_eqb (E F : EnumMeta) : bool :=
  String.eqb (enum_name E) (enum_name F)
  && members_eqb (enum_members E) (enum_members F).

End Scalars.

(** ** Equality and hashing of Python values *)

(** The number a value is, if it is one: [bool] is a subclass of [int], and
    a [Decimal] compares with an [int] by value. *)
Definition as_number (v : pyval) : option (Z * Z) :=
  match v with
  | VBool b => Some (if b then 1%Z else 0%Z, 0%Z)
  | VInt z => Some (z, 0%Z)
  | VDecimal d => Some (Decimal_number d)
  | _ => None
  end.

(** [a == b]. Lists are compared item by item; dicts have the same number
    of items and the values under each key are equal; instances of a
    dataclass are of one class and their fields are equal in order. *)
Fixpoint py_eq (a b : pyval) {struct a} : bool :=
  match as_number a, as_number b with
  | Some x, Some y => num_eq x y
  | Some _, None | None, Some _ => false
  | None, None =>
      match a, b with
      | VNone, VNone => true
      | VStr s, VStr t => String.eqb s t
      | VUUID u, VUUID v => N.eqb u v
      | VEnum E i, VEnum F j => EnumMeta_eqb E F && Nat.eqb i j
      | VDatetime x, VDatetime y => datetime_eq x y
      | VDate x, VDate y => date_eqb x y
      | VTime x, VTime y => time_eq x y
      | VList l, VList m =>
          (fix items_eq (l m : list pyval) : bool :=
             match l, m with
             | [], [] => true
             | x :: l', y :: m' => py_eq x y && items_eq l' m'
             | _, _ => false
             end) l m
      | VDict d, VDict e =>
          Nat.eqb (length d) (length e)
          && (fix all_in (d : list (pyval * pyval)) : bool :=
                match d with
                | [] => true
                | (k, v) :: d' =>
                    match
                      (fix get (e : list (pyval * pyval)) : option pyval :=
                         match e with
                         | [] => None
                         | (k', v') :: e' =>
                             if py_eq k k' then Some v' else get e'
                         end) e
                    with
                    | Some v' => py_eq v v'
                    | None => false
                    end && all_in d'
                end) d
      | VInstance c x, VInstance c' y =>
          String.eqb c c'
          && (fix fields_eq (x y : list (string * pyval)) : bool :=
                match x, y with
                | [], [] => true
                | (_, v) :: x', (_, w) :: y' => py_eq v w && fields_eq x' y'
                | _, _ => false
                end) x y
      | _, _ => false
      end
  end.

(** [hash(obj)] does not raise: lists, dicts and instances of a dataclass
    (which defines [__eq__] and is not frozen) are unhashable. *)
Definition hashable (obj : pyval) : bool :=
  match obj with
  | VList _ | VDict _ | VInstance _ _ => false
  | _ => true
  end.

(** [d[k] = v] on a dict with any hashable keys: the value under an equal
    key is replaced, the key kept; a new key goes last. *)
Fixpoint pydict_set (d : list (pyval * pyval)) (k v : pyval)
  : list (pyval * pyval) :=
  match d with
  | [] => [(k, v)]
  | (k', v') :: d' =>
      if py_eq k' k then (k', v) :: d' else (k', v') :: pydict_set d' k v
  end.


(** The value is a [list] or a [dict]. *)
Definition is_collection (obj : pyval) : bool :=
  match obj with
  | VList _ | VDict _ => true
  | _ => false
  end.

(** ** Calls of the types *)

Definition obind {A B : Type} (o : outcome A) (k : A -> outcome B) : outcome B :=
  match o with
  | Return a => k a
  | Raised e => Raised e
  end.

Declare Scope outcome_scope.
Delimit Scope outcome_scope with outcome.
Notation "x <- m ;; k" := (obind m (fun x => k))
  (at level 100, m at next level, right associativity) : outcome_scope.

Section Calls.
Local Open Scope Z_scope.

(** [int(obj)]: a number as it is, a [str] read as a sign and digits, the
    number of a [UUID]; [TypeError] for what has no [__int__]. *)
Definition int_ (obj : pyval) : outcome pyval :=
  match obj with
  | VInt z => Return (VInt z)
  | VBool b => Return (VInt (if b then 1 else 0))
  | VStr s => match int_parse s with
              | Some z => Return (VInt z)
              | None => Raised Unmodelled
              end
  | VUUID u => Return (VInt (Z.of_N u))
  | VDecimal _ => Raised Unmodelled
  | _ => Raised TypeError
  end.

(** [bool(obj)]: the truth value. *)
Definition bool_ (obj : pyval) : outcome pyval :=
  Return (VBool
    match obj with
    | VNone => false
    | VBool b => b
    | VInt z => negb (z =? 0)
    | VStr s => negb (String.eqb s EmptyString)
    | VDecimal d => negb (fst (Decimal_number d) =? 0)
    | VList l => match l with [] => false | _ => true end
    | VDict d => match d with [] => false | _ => true end
    | _ => true
    end).

(** [str(obj)]. The text of a list, of a dict and of an instance is made of
    the [repr] of their parts, which is not described here. *)
Definition str_ (obj : pyval) : outcome pyval :=
  match obj with
  | VNone => Return (VStr "None")
  | VBool b => Return (VStr (if b then "True" else "False"))
  | VInt z => Return (VStr (int_str z))
  | VStr s => Return (VStr s)
  | VUUID u => Return (VStr (UUID_str u))
  | VDecimal d => Return (VStr (Decimal_str d))
  | VDatetime dt => Return (VStr (datetime_isoformat " " dt))
  | VDate d => Return (VStr (date_isoformat d EmptyString))
  | VTime t => Return (VStr (time_isoformat t))
  | VEnum E i =>
      match nth_error (enum_members E) i with
      | Some (name, _) => Return (VStr (enum_name E +:+ "." +:+ name))
      | None => Raised Unmodelled
      end
  | VList _ | VDict _ | VInstance _ _ => Raised Unmodelled
  end.

(** [UUID(obj)]: with [None] no argument is given, a [TypeError]; for any
    other argument the constructor calls [obj.replace], which the numbers
    do not have. *)
Definition UUID_ (obj : pyval) : outcome pyval :=
  match obj with
  | VStr s => match UUID_parse s with
              | Some u => Return (VUUID u)
              | None => Raised Unmodelled
              end
  | VNone => Raised TypeError
  | VBool _ | VInt _ => Raised AttributeError
  | _ => Raised Unmodelled
  end.

(** [Decimal(obj)]. *)
Definition Decimal_ (obj : pyval) : outcome pyval :=
  match obj with
  | VStr s => match Decimal_parse s with
              | Some d => Return (VDecimal d)
              | None => Raised Unmodelled
              end
  | VInt z => Return (VDecimal (mkDecimal (z <? 0) (nat_str (Z.abs z)) 0))
  | VBool b => Return (VDecimal (mkDecimal false (if b then "1" else "0") 0))
  | VDecimal d => Return (VDecimal d)
  | VNone => Raised TypeError
  | _ => Raised Unmodelled
  end.

(** The first member whose value equals [obj]. *)
Fixpoint find_member (members : list (string * enum_value)) (obj : pyval)
    (i : nat) : option nat :=
  match members with
  | [] => None
  | (_, v) :: rest =>
      if py_eq (enum_val v) obj then Some i else find_member rest obj (S i)
  end.

(** [E(obj)]: a member of [E] as it is, else the member with that value,
    [ValueError] if there is none. *)
Definition Enum_ (E : EnumMeta) (obj : pyval) : outcome pyval :=
  match obj with
  | VEnum F i =>
      if EnumMeta_eqb F E then Return obj else Raised ValueError
  | _ =>
      match find_member (enum_members E) obj 0 with
      | Some i => Return (VEnum E i)
      | None => Raised ValueError
      end
  end.

(** [list(obj)] and [dict(obj)] for the bare types. *)
Definition list_ (obj : pyval) : outcome pyval :=
  match obj with
  | VList l => Return (VList l)
  | VDict d => Return (VList (map fst d))
  | VNone | VBool _ | VInt _ => Raised TypeError
  | _ => Raised Unmodelled
  end.

Definition dict_ (obj : pyval) : outcome pyval :=
  match obj with
  | VDict d => Return (VDict d)
  | VNone | VBool _ | VInt _ => Raised TypeError
  | _ => Raised Unmodelled
  end.

(** [obj_type(obj)] for a type that is a class. *)
Definition call (obj_type : pytype) (obj : pyval) : outcome pyval :=
  match obj_type with
  | TInt => int_ obj
  | TStr => str_ obj
  | TBool => bool_ obj
  | TUUID => UUID_ obj
  | TEnum E => Enum_ E obj
  | TDecimal => Decimal_ obj
  | TList => list_ obj
  | TDict => dict_ obj
  | TDatetime | TDate | TTime | TListOf _ | TDictOf _ _ => Raised Unmodelled
  end.

(** The three classes [decode] asks about. *)
Inductive datetime_class : Type := cls_datetime | cls_date | cls_time.

(** [issubclass(obj_type, base)]; [datetime] is a subclass of [date]. What
    the call does on a parameterized generic such as [list[int]] differs
    between versions of Python. *)
Definition issubclass (obj_type : pytype) (base : datetime_class)
  : outcome bool :=
  match obj_type, base with
  | (TListOf _ | TDictOf _ _), _ => Raised Unmodelled
  | TDatetime, (cls_datetime | cls_date) => Return true
  | TDate, cls_date => Return true
  | TTime, cls_time => Return true
  | _, _ => Return false
  end.

End Calls.

(** ** The codecs *)

Section Codecs.
Local Open Scope outcome_scope.

(** The offset of the local time zone at a local date and time. *)
Variable local_utcoffset : datetime -> Z.

(** [DefaultEncoderDecoder.encode]. *)
Definition DefaultEncoderDecoder_encode (obj : pyval) : outcome pyval :=
  match obj with
  | VUUID u => Return (VStr (UUID_str u))
  | VEnum E member =>
      match nth_error (enum_members E) member with
      | Some (_, value) => Return (enum_val value)
      | None => Raised AttributeError
      end
  | VDecimal d => Return (VStr (Decimal_str d))
  | VDatetime dt =>
      utc <- astimezone_utc local_utcoffset dt ;;
      Return (VStr (datetime_isoformat "T" utc))
  | VDate d => Return (VStr (date_isoformat d EmptyString))
  | VTime t => Return (VStr (time_isoformat t))
  | _ => Return obj
  end.

(** [DefaultEncoderDecoder.decode]. *)
Definition DefaultEncoderDecoder_decode (obj : pyval) (obj_type : pytype)
  : outcome pyval :=
  is_datetime <- issubclass obj_type cls_datetime ;;
  if is_datetime : bool then datetime_fromisoformat obj else
  is_date <- issubclass obj_type cls_date ;;
  if is_date : bool then date_fromisoformat obj else
  is_time <- issubclass obj_type cls_time ;;
  if is_time : bool then time_fromisoformat obj else
  call obj_type obj.

Definition DefaultEncoderDecoder : IStateEncoderDecoder :=
  {| encode := DefaultEncoderDecoder_encode;
     decode := DefaultEncoderDecoder_decode |}.

End Codecs.

Section Comprehension.
Local Open Scope outcome_scope.
Variables f g : pyval -> outcome pyval.

(** A list comprehension over [l], with [f] for the item. *)
Fixpoint list_comprehension (l : list pyval) : outcome (list pyval) :=
  match l with
  | [] => Return []
  | value :: rest =>
      x <- f value ;;
      xs <- list_comprehension rest ;;
      Return (x :: xs)
  end.

(** A dict comprehension over [items] into [acc], with [f] for the key and
    [g] for the value: the key, then the value, then the item is stored, for
    which the key is hashed. *)
Fixpoint dict_comprehension (items acc : list (pyval * pyval))
  : outcome (list (pyval * pyval)) :=
  match items with
  | [] => Return acc
  | (key, value) :: rest =>
      k <- f key ;;
      v <- g value ;;
      if hashable k then dict_comprehension rest (pydict_set acc k v)
      else Raised TypeError
  end.

End Comprehension.

Section Collection.
Local Open Scope outcome_scope.

(** The list of unit codecs, [self._encoders]. *)
Variable _encoders : list IStateEncoderDecoder.

(** The loop over the encoders in [encode]: the first result that is not a
    [TypeError], and [obj] itself when there is none. *)
Fixpoint encode_loop (encoders : list IStateEncoderDecoder) (obj : pyval)
  : outcome pyval :=
  match encoders with
  | [] => Return obj
  | encoder :: rest =>
      match encode encoder obj with
      | Raised TypeError => encode_loop rest obj
      | r => r
      end
  end.

(** The loop over the encoders in [decode]. *)
Fixpoint decode_loop (encoders : list IStateEncoderDecoder) (obj : pyval)
    (obj_type : pytype) : outcome pyval :=
  match encoders with
  | [] => Return obj
  | encoder :: rest =>
      match decode encoder obj obj_type with
      | Raised TypeError => decode_loop rest obj obj_type
      | r => r
      end
  end.

(** [CollectionEncoderDecoder.encode]. *)
Fixpoint CollectionEncoderDecoder_encode (obj : pyval) : outcome pyval :=
  match obj with
  | VDict items =>
      d <- (fix comprehension (items acc : list (pyval * pyval)) :=
              match items with
              | [] => Return acc
              | (key, value) :: rest =>
                  k <- CollectionEncoderDecoder_encode key ;;
                  v <- CollectionEncoderDecoder_encode value ;;
                  if hashable k then comprehension rest (pydict_set acc k v)
                  else Raised TypeError
              end) items [] ;;
      Return (VDict d)
  | VList l =>
      xs <- (fix comprehension (l : list pyval) :=
               match l with
               | [] => Return []
               | value :: rest =>
                   x <- CollectionEncoderDecoder_encode value ;;
                   xs <- comprehension rest ;;
                   Return (x :: xs)
               end) l ;;
      Return (VList xs)
  | _ => encode_loop _encoders obj
  end.

(** [CollectionEncoderDecoder.decode]. Unpacking [get_args(obj_type)] into
    two names raises [ValueError] unless there are two; its item [0] raises
    [IndexError] if there is none. *)
Fixpoint CollectionEncoderDecoder_decode (obj : pyval) (obj_type : pytype)
  : outcome pyval :=
  match obj with
  | VDict items =>
      match get_args obj_type with
      | [key_type; value_type] =>
          d <- (fix comprehension (items acc : list (pyval * pyval)) :=
                  match items with
                  | [] => Return acc
                  | (key, value) :: rest =>
                      k <- CollectionEncoderDecoder_decode key key_type ;;
                      v <- CollectionEncoderDecoder_decode value value_type ;;
                      if hashable k then comprehension rest (pydict_set acc k v)
                      else Raised TypeError
                  end) items [] ;;
          Return (VDict d)
      | _ => Raised ValueError
      end
  | VList l =>
      match get_args obj_type with
      | value_type :: _ =>
          xs <- (fix comprehension (l : list pyval) :=
                   match l with
                   | [] => Return []
                   | value :: rest =>
                       x <- CollectionEncoderDecoder_decode value value_type ;;
                       xs <- comprehension rest ;;
                       Return (x :: xs)
                   end) l ;;
          Return (VList xs)
      | [] => Raised IndexError
      end
  | _ => decode_loop _encoders obj obj_type
  end.

Definition CollectionEncoderDecoder : IStateEncoderDecoder :=
  {| encode := CollectionEncoderDecoder_encode;
     decode := CollectionEncoderDecoder_decode |}.

End Collection.

(** The local time zone of the process is taken to be UTC where a codec is
    not given one. *)
Definition utc_zone (dt : datetime) : Z := 0%Z.

(** [default_encoder()]. *)
Definition default_encoder : IStateEncoderDecoder :=
  CollectionEncoderDecoder [DefaultEncoderDecoder utc_zone].

(** ** Well-typed values *)






(** The round trip of a value through a codec: [decode(encode(v), t) == v]. *)
Definition round_trip (codec : IStateEncoderDecoder) (v : pyval) (t : pytype)
  : Prop :=
  exists raw v',
    encode codec v = Return raw
    /\ decode codec raw t = Return v'
    /\ py_eq v' v = true.


(** An [Enum] with three members valued 1, 2 and 3, as [auto()] gives. *)
Definition MyEnum : EnumMeta :=
  mkEnum "MyEnum" [("A", EInt 1); ("B", EInt 2); ("C", EInt 3)].

(** 2024-03-10 01:30:00.25 at UTC+02:00. *)
Definition a_datetime : datetime :=
  Datetime (Date 2024 3 10) (Time 1 30 0 250000 (Some 7200000000%Z)).

(** ** Heap, state and the monad of effects *)

(** References into the heap. *)
Abbreviation ref := nat (only parsing).

(** Python [dict] with [str] keys: insertion ordered; assigning to a present
    key replaces its value and keeps its place. *)
Fixpoint dict_set {V : Type} (d : list (string * V)) (k : string) (v : V)
  : list (string * V) :=
  match d with
  | [] => [(k, v)]
  | (k', v') :: d' =>
      if String.eqb k' k then (k', v) :: d' else (k', v') :: dict_set d' k v
  end.

Fixpoint dict_get {V : Type} (d : list (string * V)) (k : string) : option V :=
  match d with
  | [] => None
  | (k', v') :: d' => if String.eqb k' k then Some v' else dict_get d' k
  end.

(** [d.update] with the items of [src] as keyword arguments. *)
Definition dict_update {V : Type} (d src : list (string * V))
  : list (string * V) :=
  fold_left (fun acc kv => dict_set acc (fst kv) (snd kv)) src d.

Definition dict_keys {V : Type} (d : list (string * V)) : list string :=
  map fst d.

(** Objects of the heap. A [ProxyField] and a [NameField] are descriptors; a
    [ProxyInstance] is the instance of a generated proxy class with the
    class attributes: the fields in [namespace], and the three attributes
    [__state_proxy_dataclass_type], [__state_proxy_field_dict] and
    [__state_proxy_state_id]. *)
Inductive obj : Type :=
| ProxyField (_state_id _name : string) (_type : field_type)
             (_default : option pyval) (_encoder : IStateEncoderDecoder)
| NameField (_state_id : string)
| PyDict (items : list (string * ref))
| ProxyInstance (cls_name : string) (namespace : list (string * ref))
                (_STATE_PROXY_DATACLASS_TYPE : dataclass)
                (_STATE_PROXY_FIELD_DICT : ref)
                (_STATE_PROXY_STATE_ID : string).

Record world : Type := World {
  heap : list obj;
  state : gmap string pyval
}.

Inductive result (A : Type) : Type :=
| Ok (a : A) (w : world)
| Raise (e : exn) (w : world).
Arguments Ok {A} a w.
Arguments Raise {A} e w.

Definition M (A : Type) : Type := world -> result A.

Definition ret {A : Type} (a : A) : M A := fun w => Ok a w.

Definition bind {A B : Type} (m : M A) (k : A -> M B) : M B :=
  fun w => match m w with
           | Ok a w' => k a w'
           | Raise e w' => Raise e w'
           end.

Definition raise {A : Type} (e : exn) : M A := fun w => Raise e w.

Definition lift {A : Type} (o : outcome A) : M A :=
  match o with
  | Return a => ret a
  | Raised e => raise e
  end.

Declare Scope py_scope.
Delimit Scope py_scope with py.
Notation "x <- m ;; k" := (bind m (fun x => k))
  (at level 100, m at next level, right associativity) : py_scope.
Notation "m ;;; k" := (bind m (fun _ => k))
  (at level 100, right associativity) : py_scope.
Local Open Scope py_scope.

(** Modelled from the spec: the store's [get(key) -> primitive | missing];
    the [State] class is not among the sources. A missing key reads as
    [None]. *)
Definition state_getitem (key : string) : M pyval :=
  fun w => Ok (default VNone (state w !! key)) w.

(** Modelled from the spec: the store's [set(key, value)]. *)
Definition state_setitem (key : string) (value : pyval) : M unit :=
  fun w => Ok tt (World (heap w) (<[key := value]> (state w))).

(** Modelled from the spec: the store's [set_default(key, primitive)], a
    no-op if the key is already present. *)
Definition state_setdefault (key : string) (value : pyval) : M unit :=
  fun w => match state w !! key with
           | Some _ => Ok tt w
           | None => Ok tt (World (heap w) (<[key := value]> (state w)))
           end.


(** What an attribute access or a binding token evaluates to: a value (a
    state id is a [VStr]) or a reference to an object of the heap. *)
Inductive pyobj : Type :=
| OVal (v : pyval)
| ORef (r : ref).

(** Creating an object: it gets the next free reference. *)
Definition alloc (o : obj) : M ref :=
  fun w => Ok (length (heap w)) (World (heap w ++ [o]) (state w)).

(** [d[k] = v] on the dict object at [d]. The field dicts are passed as
    keyword arguments to [update], so their keys are [str]. *)
Definition dict_setitem (d : ref) (k : pyobj) (v : ref) : M unit :=
  fun w => match heap w !! d, k with
           | Some (PyDict items), OVal (VStr k) =>
               Ok tt (World (<[d := PyDict (dict_set items k v)]> (heap w)) (state w))
           | _, _ => Raise TypeError w
           end.

(** [list(d.items())] of the dict object at [d]. *)
Definition dict_items (d : ref) : M (list (string * ref)) :=
  fun w => match heap w !! d with
           | Some (PyDict items) => Ok items w
           | _ => Raise TypeError w
           end.

(** [d.update] with the items of the dict object [src] as keyword
    arguments. *)
Definition dict_update_obj (d src : ref) : M unit :=
  items <- dict_items src ;;
  fun w => match heap w !! d with
           | Some (PyDict old) =>
               Ok tt (World (<[d := PyDict (dict_update old items)]> (heap w)) (state w))
           | _ => Raise TypeError w
           end.

(** [d[k]] on the dict object at [d]. *)
Definition dict_getitem (d : ref) (k : pyobj) : M ref :=
  items <- dict_items d ;;
  match k with
  | OVal (VStr s) =>
      match dict_get items s with
      | Some v => ret v
      | None => raise KeyError
      end
  | _ => raise KeyError
  end.


(** A list comprehension: [body] on every element in order. *)
Fixpoint list_comp {A B : Type} (body : A -> M B) (l : list A) : M (list B) :=
  match l with
  | [] => ret []
  | a :: l' => b <- body a ;; bs <- list_comp body l' ;; ret (b :: bs)
  end.

(** ** Descriptors *)

(** [ProxyField.__init__]: the new descriptor, after the default (or what
    the default factory returns) was written with [setdefault]. *)
Definition ProxyField_init (state_id name : string) (field_type : field_type)
    (default default_factory : option pyval)
    (state_encoder : IStateEncoderDecoder) : M ref :=
  self <- alloc (ProxyField state_id name field_type default state_encoder) ;;
  let default_value :=
    match default, default_factory with
    | None, Some v => Some v
    | _, _ => default
    end in
  match default_value with
  | Some v =>
      x <- lift (encode state_encoder v) ;;
      state_setdefault state_id x ;;;
      ret self
  | None => ret self
  end.

(** [NameField.__init__]. *)
Definition NameField_init (state_id : string) : M ref :=
  alloc (NameField state_id).

(** [ProxyField.get_value]. A [ProxyField] is made for fields whose type is
    not a dataclass only, so [_type] is a [Leaf]. *)
Definition get_value (self : ref) : M pyval :=
  fun w => match heap w !! self with
           | Some (ProxyField state_id _ (Leaf ty) _ encoder) =>
               (value <- state_getitem state_id ;;
                lift (decode encoder value ty)) w
           | _ => Raise AttributeError w
           end.

(** [ProxyField.set_value]. *)
Definition set_value (self : ref) (value : pyval) : M unit :=
  fun w => match heap w !! self with
           | Some (ProxyField state_id _ _ _ encoder) =>
               (x <- lift (encode encoder value) ;;
                state_setitem state_id x) w
           | _ => Raise AttributeError w
           end.

(** ** The proxy builder *)

(** [get_state_id(instance, default)]: the attribute
    [__state_proxy_state_id], which only proxy instances have. *)
Definition get_state_id (instance : pyobj) (default : pyobj) : M pyobj :=
  fun w => match instance with
           | ORef r =>
               match heap w !! r with
               | Some (ProxyInstance _ _ _ _ state_id) => Ok (OVal (VStr state_id)) w
               | _ => Ok default w
               end
           | OVal _ => Ok default w
           end.

(** The rebinding of [prefix] in [_build_proxy_cls]:
    [f"{prefix}__{class_name}" if prefix else class_name]. *)
Definition node_prefix (prefix class_name : string) : string :=
  match prefix with
  | EmptyString => class_name
  | _ => prefix +:+ "__" +:+ class_name
  end.

(** [_build_proxy_cls]. *)
Fixpoint _build_proxy_cls (dataclass_type : dataclass) (prefix : string)
    (handler : string -> Field -> M ref) (cls_suffix : string)
    (proxy_field_dict : option ref) {struct dataclass_type} : M ref :=
  match dataclass_type with
  | Dataclass class_name flds =>
      inner_field_dict <- alloc (PyDict []) ;;
      let prefix := node_prefix prefix class_name in
      namespace <-
        (fix loop (fs : list Field) (namespace : list (string * ref))
           {struct fs} : M (list (string * ref)) :=
           match fs with
           | [] => ret namespace
           | f :: fs' =>
               let state_id := prefix +:+ "__" +:+ f_name f in
               field <-
                 match f_type f with
                 | Data dc =>
                     _build_proxy_cls dc state_id handler cls_suffix
                                      (Some inner_field_dict)
                 | Leaf _ => handler state_id f
                 end ;;
               key <- get_state_id (ORef field) (OVal (VStr state_id)) ;;
               dict_setitem inner_field_dict key field ;;;
               loop fs' (dict_set namespace (f_name f) field)
           end) flds [] ;;
      match proxy_field_dict with
      | Some d => dict_update_obj d inner_field_dict
      | None => ret tt
      end ;;;
      proxy_instance <-
        alloc (ProxyInstance (class_name +:+ cls_suffix) namespace
                             dataclass_type inner_field_dict prefix) ;;
      dict_setitem inner_field_dict (OVal (VStr prefix)) proxy_instance ;;;
      ret proxy_instance
  end.

(** [state_encoder or default_encoder()]. *)
Definition encoder_or_default (state_encoder : option IStateEncoderDecoder)
  : IStateEncoderDecoder :=
  match state_encoder with
  | Some e => e
  | None => default_encoder
  end.

(** [state_proxy]; the [State] is the one of the world. *)
Definition state_proxy (dataclass_type : dataclass) (state_namespace : string)
    (state_encoder : option IStateEncoderDecoder) : M ref :=
  let state_encoder := encoder_or_default state_encoder in
  let handler (state_id : string) (field : Field) : M ref :=
    ProxyField_init state_id (f_name field) (f_type field)
                    (f_default field) (f_default_factory field) state_encoder in
  _build_proxy_cls dataclass_type state_namespace handler "__Proxy" None.

(** [state_names_proxy]. *)
Definition state_names_proxy (dataclass_type : dataclass)
    (state_namespace : string) : M ref :=
  let handler (state_id : string) (_field : Field) : M ref :=
    NameField_init state_id in
  _build_proxy_cls dataclass_type state_namespace handler "__ProxyName" None.

(** [state_proxies]. *)
Definition state_proxies (dataclass_type : dataclass) (state_namespace : string)
    (state_encoder : option IStateEncoderDecoder) : M (ref * ref) :=
  data <- state_proxy dataclass_type state_namespace state_encoder ;;
  name <- state_names_proxy dataclass_type state_namespace ;;
  ret (data, name).

(** ** Attribute access and conversion *)

(** [getattr(instance, name)] on a proxy instance. The class attribute is
    looked up in the namespace of the generated class; a descriptor runs its
    [__get__], a nested proxy instance is returned as it is. *)
Definition getattr_ (instance : ref) (name : string) : M pyobj :=
  fun w => match heap w !! instance with
           | Some (ProxyInstance _ namespace _ _ _) =>
               match dict_get namespace name with
               | Some field =>
                   match heap w !! field with
                   | Some (ProxyField _ _ _ _ _) =>
                       (v <- get_value field ;; ret (OVal v)) w
                   | Some (NameField state_id) => Ok (OVal (VStr state_id)) w
                   | _ => Ok (ORef field) w
                   end
               | None => Raise AttributeError w
               end
           | _ => Raise AttributeError w
           end.

(** [setattr(instance, name, value)] on a value-proxy instance: the class
    attribute is a [ProxyField], a data descriptor whose [__set__] runs
    [set_value]. Assignment to any other attribute would create an instance
    attribute; instance attributes are not part of this model. *)
Definition setattr_ (instance : ref) (name : string) (value : pyval) : M unit :=
  fun w => match heap w !! instance with
           | Some (ProxyInstance _ namespace _ _ _) =>
               match dict_get namespace name with
               | Some field => set_value field value w
               | None => Raise AttributeError w
               end
           | _ => Raise AttributeError w
           end.

(** [_get_proxy_dataclass_type]. *)
Definition _get_proxy_dataclass_type (instance : pyobj) : M (option dataclass) :=
  fun w => match instance with
           | ORef r =>
               match heap w !! r with
               | Some (ProxyInstance _ _ dataclass_type _ _) =>
                   Ok (Some dataclass_type) w
               | _ => Ok None w
               end
           | OVal _ => Ok None w
           end.

(** [_get_proxy_dataclass_type_or_raise]. *)
Definition _get_proxy_dataclass_type_or_raise (instance : pyobj) : M dataclass :=
  cls <- _get_proxy_dataclass_type instance ;;
  match cls with
  | None => raise RuntimeError
  | Some cls => ret cls
  end.

(** [is_proxy_class]. *)
Definition is_proxy_class (instance : pyobj) : M bool :=
  cls <- _get_proxy_dataclass_type instance ;;
  ret (match cls with Some _ => true | None => false end).


(** ** The binder *)

(** [get_field_proxy_dict]: the field dict object of the instance. *)
Definition get_field_proxy_dict (instance : pyobj) : M ref :=
  _get_proxy_dataclass_type_or_raise instance ;;;
  fun w => match instance with
           | ORef r =>
               match heap w !! r with
               | Some (ProxyInstance _ _ _ field_dict _) => Ok field_dict w
               | _ => alloc (PyDict []) w
               end
           | OVal _ => alloc (PyDict []) w
           end.

(** [get_reactive_state_id_keys]. *)
Fixpoint get_reactive_state_id_keys (keys : list pyobj) : M (list pyobj) :=
  match keys with
  | [] => ret []
  | key :: keys' =>
      is_proxy <- is_proxy_class key ;;
      react_keys <-
        (if is_proxy : bool then
           d <- get_field_proxy_dict key ;;
           items <- dict_items d ;;
           ret (map (fun k => OVal (VStr k)) (dict_keys items))
         else ret [key]) ;;
      rest <- get_reactive_state_id_keys keys' ;;
      ret (react_keys ++ rest)
  end.

(** [get_value_state_keys]. *)
Definition get_value_state_keys (keys : list pyobj) : M (list pyobj) :=
  list_comp (fun key => get_state_id key key) keys.

(** The closure [_on_state_change] of [bind_typed_state_change] with the
    variables it captures. *)
Record closure : Type := Closure {
  state_id_to_field_dict : ref;
  value_keys : list pyobj
}.

(** The body of [_on_state_change]: the positional arguments [values] that
    [callback] is called with. *)
Definition _on_state_change (c : closure) : M (list pyobj) :=
  values <- list_comp (dict_getitem (state_id_to_field_dict c)) (value_keys c) ;;
  list_comp (fun v =>
               is_proxy <- is_proxy_class (ORef v) ;;
               if is_proxy : bool then ret (ORef v)
               else x <- get_value v ;; ret (OVal x))
            values.

(** The [keys] argument of [bind_typed_state_change]: one token, a list or
    a tuple of tokens. *)
Inductive keys_arg : Type :=
| KeyOne (key : pyobj)
| KeyList (keys : list pyobj)
| KeyTuple (keys : list pyobj).

(** [bind_typed_state_change(keys, callback, state, data)]: the keys handed
    to [state.change] and the closure registered for them. A list of keys
    becomes a tuple, a single key a tuple of one. *)
Definition bind_typed_state_change (keys : keys_arg) (data : pyobj)
  : M (list pyobj * closure) :=
  state_id_to_field_dict <- get_field_proxy_dict data ;;
  let keys := match keys with
              | KeyList l => l
              | KeyTuple l => l
              | KeyOne k => [k]
              end in
  value_keys <- get_value_state_keys keys ;;
  react_keys <- get_reactive_state_id_keys keys ;;
  ret (react_keys, Closure state_id_to_field_dict value_keys).

(** ** The tree a build leaves in the heap *)

Section BuildFields.
Variable handler : string -> Field -> M ref.
Variables cls_suffix prefix : string.
Variable inner_field_dict : ref.

(** The loop of [_build_proxy_cls] over the fields, as a function of its
    own. *)
Fixpoint build_fields (fs : list Field) (namespace : list (string * ref))
    {struct fs} : M (list (string * ref)) :=
  match fs with
  | [] => ret namespace
  | f :: fs' =>
      let state_id := prefix +:+ "__" +:+ f_name f in
      field <-
        match f_type f with
        | Data dc =>
            _build_proxy_cls dc state_id handler cls_suffix
                             (Some inner_field_dict)
        | Leaf _ => handler state_id f
        end ;;
      key <- get_state_id (ORef field) (OVal (VStr state_id)) ;;
      dict_setitem inner_field_dict key field ;;;
      build_fields fs' (dict_set namespace (f_name f) field)
  end.
End BuildFields.

(** The objects a build creates, as a tree: a leaf descriptor with its state
    id and reference, or a proxy instance with its state id, its reference,
    the reference of its field dict, its dataclass type and its fields. *)
Inductive ptree : Type :=
| PLeaf (key : string) (r : ref) (f : Field)
| PNode (key : string) (r : ref) (fd : ref) (dc : dataclass) (kids : list ptree).

Definition pkey (t : ptree) : string :=
  match t with PLeaf k _ _ => k | PNode k _ _ _ _ => k end.
Definition pref (t : ptree) : ref :=
  match t with PLeaf _ r _ => r | PNode _ r _ _ _ => r end.
Definition pkids (t : ptree) : list ptree :=
  match t with PLeaf _ _ _ => [] | PNode _ _ _ _ kids => kids end.

(** The number of objects of a tree. *)
Fixpoint psize (t : ptree) : nat :=
  match t with
  | PLeaf _ _ _ => 1
  | PNode _ _ _ _ kids => 2 + list_sum (map psize kids)
  end.

(** The tree built for [dc] under [prefix] when the next free reference is
    [n]: the field dict is created first, then the fields in order, then the
    instance. *)
Fixpoint shape (dc : dataclass) (prefix : string) (n : nat) {struct dc} : ptree :=
  match dc with
  | Dataclass class_name flds =>
      let p := node_prefix prefix class_name in
      let kids :=
        (fix go (fs : list Field) (m : nat) {struct fs} : list ptree :=
           match fs with
           | [] => []
           | f :: fs' =>
               let state_id := p +:+ "__" +:+ f_name f in
               let t := match f_type f with
                        | Data dc' => shape dc' state_id m
                        | Leaf _ => PLeaf state_id m f
                        end in
               t :: go fs' (m + psize t)
           end) flds (S n) in
      PNode p (S n + list_sum (map psize kids)) n dc kids
  end.

Definition shape_field (p : string) (f : Field) (m : nat) : ptree :=
  let state_id := p +:+ "__" +:+ f_name f in
  match f_type f with
  | Data dc' => shape dc' state_id m
  | Leaf _ => PLeaf state_id m f
  end.

Section ShapeFields.
Variable p : string.

Fixpoint shape_fields (fs : list Field) (m : nat) {struct fs} : list ptree :=
  match fs with
  | [] => []
  | f :: fs' =>
      let t := shape_field p f m in
      t :: shape_fields fs' (m + psize t)
  end.
End ShapeFields.

(** The entries of the subtree in the order the build meets them: the
    entries of the fields in order, then the node itself. *)
Fixpoint entries (t : ptree) : list (string * ref) :=
  match t with
  | PLeaf k r _ => [(k, r)]
  | PNode k r _ _ kids => flat_map entries kids ++ [(k, r)]
  end.

(** The leaf fields of the subtree with their state ids, in order. *)
Fixpoint leaves (t : ptree) : list (string * Field) :=
  match t with
  | PLeaf k _ f => [(k, f)]
  | PNode _ _ _ _ kids => flat_map leaves kids
  end.

(** All references of the subtree. *)
Fixpoint prefs (t : ptree) : list ref :=
  match t with
  | PLeaf _ r _ => [r]
  | PNode _ r fd _ kids => r :: fd :: flat_map prefs kids
  end.

(** The items of the field dict of a node before its own key is set, and
    after: what the assignments and updates of the build leave in it. *)
Fixpoint inner_items (t : ptree) : list (string * ref) :=
  match t with
  | PLeaf _ _ _ => []
  | PNode _ _ _ _ kids =>
      fold_left
        (fun acc kid =>
           dict_set (dict_update acc (inner_items kid)) (pkey kid) (pref kid))
        kids []
  end.

Definition field_items (t : ptree) : list (string * ref) :=
  dict_set (inner_items t) (pkey t) (pref t).

(** The class namespace of a node: its fields by name. *)
Definition namespace_of (dc : dataclass) (kids : list ptree) : list (string * ref) :=
  dict_update [] (combine (map f_name (dc_fields dc)) (map pref kids)).

Section Built.
(** The descriptor the leaf handler makes, and the class name suffix. *)
Variable leaf_obj : string -> Field -> obj.
Variable cls_suffix : string.

(** The heap holds the tree. *)
Fixpoint built (h : list obj) (t : ptree) {struct t} : Prop :=
  match t with
  | PLeaf key r f => h !! r = Some (leaf_obj key f)
  | PNode key r fd dc kids =>
      h !! r = Some (ProxyInstance (dc_name dc +:+ cls_suffix)
                                   (namespace_of dc kids) dc fd key)
      /\ h !! fd = Some (PyDict (field_items t))
      /\ fold_right (fun kid P => built h kid /\ P) True kids
  end.
End Built.

(** ** Schemas seen from outside: paths, keys and counts *)

(** Field names of a dataclass are distinct, at every level. *)
Fixpoint wf_dataclass (dc : dataclass) : Prop :=
  match dc with
  | Dataclass _ flds =>
      NoDup (map f_name flds)
      /\ fold_right
           (fun f P => match f_type f with
                       | Data dc' => wf_dataclass dc'
                       | Leaf _ => True
                       end /\ P)
           True flds
  end.

(** [fields(dc)] searched by name. *)
Definition find_field (name : string) (flds : list Field) : option Field :=
  find (fun f => String.eqb (f_name f) name) flds.

(** What a path of attribute names leads to in a schema built under
    [prefix]: a leaf field with its state id, or a dataclass with the prefix
    its build is given. *)
Inductive at_path : Type :=
| AtLeaf (state_id : string) (f : Field)
| AtNode (dc : dataclass) (prefix : string).

Fixpoint schema_at (dc : dataclass) (prefix : string) (path : list string)
  : option at_path :=
  match path with
  | [] => Some (AtNode dc prefix)
  | name :: rest =>
      match find_field name (dc_fields dc) with
      | None => None
      | Some f =>
          let state_id := node_prefix prefix (dc_name dc) +:+ "__" +:+ name in
          match f_type f with
          | Leaf _ => match rest with
                      | [] => Some (AtLeaf state_id f)
                      | _ => None
                      end
          | Data dc' => schema_at dc' state_id rest
          end
      end
  end.

(** The state id of what a path leads to: the derived key of a leaf, the
    synthetic key of a dataclass. *)
Definition at_key (a : at_path) : string :=
  match a with
  | AtLeaf state_id _ => state_id
  | AtNode dc prefix => node_prefix prefix (dc_name dc)
  end.

(** The keys of a schema in the order the build meets them: the keys of the
    fields in order, a nested dataclass with all of its keys, then the key
    of the dataclass itself. *)
Fixpoint schema_keys (dc : dataclass) (prefix : string) : list string :=
  match dc with
  | Dataclass class_name flds =>
      let p := node_prefix prefix class_name in
      flat_map (fun f =>
                  let state_id := p +:+ "__" +:+ f_name f in
                  match f_type f with
                  | Data dc' => schema_keys dc' state_id
                  | Leaf _ => [state_id]
                  end) flds
      ++ [p]
  end.

(** The derived keys of the leaf fields only, recursively. *)
Fixpoint leaf_keys (dc : dataclass) (prefix : string) : list string :=
  match dc with
  | Dataclass class_name flds =>
      let p := node_prefix prefix class_name in
      flat_map (fun f =>
                  let state_id := p +:+ "__" +:+ f_name f in
                  match f_type f with
                  | Data dc' => leaf_keys dc' state_id
                  | Leaf _ => [state_id]
                  end) flds
  end.

(** [L]: the leaf fields, counted recursively. *)
Fixpoint count_leaves (dc : dataclass) : nat :=
  match dc with
  | Dataclass _ flds =>
      list_sum (map (fun f => match f_type f with
                              | Data dc' => count_leaves dc'
                              | Leaf _ => 1
                              end) flds)
  end.

(** [S]: the sub-record nodes, counted recursively, the root included. *)
Fixpoint count_records (dc : dataclass) : nat :=
  match dc with
  | Dataclass _ flds =>
      1 + list_sum (map (fun f => match f_type f with
                                  | Data dc' => count_records dc'
                                  | Leaf _ => 0
                                  end) flds)
  end.

(** The keys of a Python dict that was assigned the given keys in order:
    each key once, at the place of its first assignment. *)
Definition add_key (ks : list string) (k : string) : list string :=
  if existsb (String.eqb k) ks then ks else ks ++ [k].

Definition first_occurrences (l : list string) : list string :=
  fold_left add_key l [].

(** Following attribute names from a proxy instance through the class
    namespaces, without running descriptors. *)
Fixpoint resolve (h : list obj) (r : ref) (path : list string) : option ref :=
  match path with
  | [] => Some r
  | name :: rest =>
      match h !! r with
      | Some (ProxyInstance _ namespace _ _ _) =>
          match dict_get namespace name with
          | Some r' => resolve h r' rest
          | None => None
          end
      | _ => None
      end
  end.


(** ** The two leaf handlers *)

(** The descriptor [state_proxy] makes for a leaf field, and the one
    [state_names_proxy] makes. *)
Definition proxy_leaf (enc : IStateEncoderDecoder) (state_id : string) (f : Field)
  : obj :=
  ProxyField state_id (f_name f) (f_type f) (f_default f) enc.

Definition name_leaf (state_id : string) (f : Field) : obj :=
  NameField state_id.

(** The default a [ProxyField] is initialised with: [default], or what
    [default_factory] returns when [default] is missing. *)
Definition default_value (f : Field) : option pyval :=
  match f_default f, f_default_factory f with
  | None, Some v => Some v
  | d, _ => d
  end.

(** Set-if-absent on the map of the state. *)
Definition setdefault_map (k : string) (x : pyval) (s : gmap string pyval)
  : gmap string pyval :=
  match s !! k with
  | Some _ => s
  | None => <[k := x]> s
  end.

(** What making the [ProxyField] of one leaf does to the state. *)
Definition proxy_hstate (enc : IStateEncoderDecoder) (state_id : string)
    (f : Field) (s : gmap string pyval) : gmap string pyval :=
  match default_value f with
  | Some v =>
      match encode enc v with
      | Return x => setdefault_map state_id x s
      | Raised _ => s
      end
  | None => s
  end.

(** Every key present before is present after, with the same value. *)
Definition preserved (s s' : gmap string pyval) : Prop :=
  forall k v, s !! k = Some v -> s' !! k = Some v.

(** ** Derived keys as the specification gives them *)

(** The derived key of a field: prefix, type name and field name joined by
    double underscores. *)
Definition derived_key (prefix type_name field_name : string) : string :=
  prefix +:+ "__" +:+ type_name +:+ "__" +:+ field_name.

(** The formula applied along a path: the derived key of a nested record
    field is the prefix of its own children. *)
Fixpoint derived_key_at (dc : dataclass) (prefix : string) (path : list string)
  : option string :=
  match path with
  | [] => None
  | name :: rest =>
      match find_field name (dc_fields dc) with
      | None => None
      | Some f =>
          let k := derived_key prefix (dc_name dc) name in
          match f_type f with
          | Leaf _ => match rest with
                      | [] => Some k
                      | _ => None
                      end
          | Data dc' => derived_key_at dc' k rest
          end
      end
  end.

(** The claim on derived keys at one schema, namespace and path: the
    descriptor of the leaf stores under the key of the formula. *)
Definition derived_key_claim (dc : dataclass) (ns : string) (path : list string)
  : Prop :=
  forall oenc w r w' k,
    state_proxy dc ns oenc w = Ok r w' ->
    derived_key_at dc ns path = Some k ->
    exists a name ty d enc,
      resolve (heap w') r path = Some a
      /\ heap w' !! a = Some (ProxyField k name ty d enc).

(** ** Example schemas *)

(** The dataclasses of the tests. *)
Definition MyData : dataclass :=
  Dataclass "MyData"
    [mkField "a" (Leaf TInt) (Some (VInt 1)) None;
     mkField "b" (Leaf TInt) (Some (VInt 2)) None].

Definition MyBiggerData : dataclass :=
  Dataclass "MyBiggerData"
    [mkField "my_other_data" (Data MyData) None (Some (VInstance "MyData" []));
     mkField "c" (Leaf TInt) (Some (VInt 42)) None].

(** A dataclass with a field whose name contains the separator. *)
Definition Inner : dataclass :=
  Dataclass "Inner" [mkField "y" (Leaf TInt) (Some (VInt 1)) None].

Definition Outer : dataclass :=
  Dataclass "Outer"
    [mkField "x" (Data Inner) None None;
     mkField "x__Inner" (Leaf TInt) (Some (VInt 7)) None].

(** A world with no object and an empty state. *)
Definition empty_world : world := World [] ∅.

(** ** Mirrored proxies *)


(** ** The flat field index *)

(** The items of the flat field index of a proxy instance, read through
    [get_field_proxy_dict]. *)
Definition field_index (instance : ref) : M (list (string * ref)) :=
  d <- get_field_proxy_dict (ORef instance) ;;
  dict_items d.

(** The claim on the size of the index, at one schema and namespace: the
    index of the root value-proxy has [L + S] entries. *)
Definition index_size_claim (dc : dataclass) (ns : string) : Prop :=
  forall oenc w r w' items w'',
    state_proxy dc ns oenc w = Ok r w' ->
    field_index r w' = Ok items w'' ->
    length items = count_leaves dc + count_records dc.

(** The claim on nested indices, at one schema, namespace and path to a
    sub-record: what the index of the sub-record maps a key to, the index
    of the root maps it to as well. *)
Definition index_contained_claim (dc : dataclass) (ns : string)
    (path : list string) : Prop :=
  forall oenc w r w' sub items_sub items_root k a,
    state_proxy dc ns oenc w = Ok r w' ->
    resolve (heap w') r path = Some sub ->
    field_index sub w' = Ok items_sub w' ->
    field_index r w' = Ok items_root w' ->
    dict_get items_sub k = Some a ->
    dict_get items_root k = Some a.

(** ** Binding tokens *)

(** A binding token taken from a name-proxy: the string of a leaf, or the
    sub-record node at a path of attribute names (the root at the empty
    path). *)
Inductive token : Type :=
| LeafToken (s : string)
| RecordToken (path : list string).

(** The Python value of a token, for the name-proxy [name] in the heap. *)
Definition token_obj (h : list obj) (name : ref) (t : token) : option pyobj :=
  match t with
  | LeafToken s => Some (OVal (VStr s))
  | RecordToken path =>
      match resolve h name path with
      | Some r => Some (ORef r)
      | None => None
      end
  end.

(** A sub-record token names a sub-record of the schema. *)
Definition token_ok (dc : dataclass) (ns : string) (t : token) : Prop :=
  match t with
  | LeafToken _ => True
  | RecordToken path =>
      match schema_at dc ns path with
      | Some (AtNode _ _) => True
      | _ => False
      end
  end.

(** The state ids a token stands for when a change is bound: the string of
    a leaf token; for a sub-record token, the keys of its index. *)
Definition reactive_of (dc : dataclass) (ns : string) (t : token) : list string :=
  match t with
  | LeafToken s => [s]
  | RecordToken path =>
      match schema_at dc ns path with
      | Some (AtNode dc' prefix') => first_occurrences (schema_keys dc' prefix')
      | _ => []
      end
  end.

(** The reactive keys as the claim gives them: for a sub-record token its
    descendant leaf keys, then its own synthetic key. *)
Definition claimed_reactive_of (dc : dataclass) (ns : string) (t : token)
  : list string :=
  match t with
  | LeafToken s => [s]
  | RecordToken path =>
      match schema_at dc ns path with
      | Some (AtNode dc' prefix') =>
          leaf_keys dc' prefix' ++ [node_prefix prefix' (dc_name dc')]
      | _ => []
      end
  end.

Definition str_obj (s : string) : pyobj := OVal (VStr s).

(** The claim on reactive keys, at one schema, namespace and list of
    tokens. *)
Definition reactive_keys_claim (dc : dataclass) (ns : string) (toks : list token)
  : Prop :=
  forall w name w' keys,
    state_names_proxy dc ns w = Ok name w' ->
    Forall2 (fun t o => token_obj (heap w') name t = Some o) toks keys ->
    get_reactive_state_id_keys keys w'
    = Ok (map str_obj (flat_map (claimed_reactive_of dc ns) toks)) w'.

(** ** Callback arguments *)



(** ** Defaults *)

(** The leaf fields of a schema with their derived keys, in the order the
    build meets them. *)
Fixpoint schema_leaves (dc : dataclass) (prefix : string) : list (string * Field) :=
  match dc with
  | Dataclass class_name flds =>
      let p := node_prefix prefix class_name in
      flat_map (fun f =>
                  let state_id := p +:+ "__" +:+ f_name f in
                  match f_type f with
                  | Data dc' => schema_leaves dc' state_id
                  | Leaf _ => [(state_id, f)]
                  end) flds
  end.

(** The state after the defaults of the given leaves were set if absent, in
    order. *)
Definition set_defaults (enc : IStateEncoderDecoder) (ls : list (string * Field))
    (s : gmap string pyval) : gmap string pyval :=
  fold_left (fun s kf => proxy_hstate enc (fst kf) (snd kf) s) ls s.

(** The world a call ends in. *)
Definition result_world {A : Type} (r : result A) : world :=
  match r with
  | Ok _ w => w
  | Raise _ w => w
  end.

(** ** Populating a proxy from a dataclass instance *)




(** A codec for [int] fields that signals every other value as unhandled. *)
Definition IntEncoderDecoder : IStateEncoderDecoder :=
  {| encode := fun obj => match obj with
                          | VInt z => Return (VInt z)
                          | _ => raise_unhandled_type obj
                          end;
     decode := fun obj obj_type => match obj, obj_type with
                                   | VInt z, TInt => Return (VInt z)
                                   | _, _ => raise_unhandled_type obj
                                   end |}.





(** ** The composite codec when every unit declines *)

(** The claim that the composite [decode] raises when every unit codec
    raises [TypeError], at one chain, raw value and declared type. *)
Definition composite_decode_claim (encoders : list IStateEncoderDecoder)
    (obj : pyval) (obj_type : pytype) : Prop :=
  is_collection obj = false ->
  Forall (fun encoder => decode encoder obj obj_type = Raised TypeError)
         encoders ->
  exists e, decode (CollectionEncoderDecoder encoders) obj obj_type = Raised e.

(** ** Runs that return, and reading without writing *)

(** The run returned. *)
Definition returned {A : Type} (r : result A) : bool :=
  match r with
  | Ok _ _ => true
  | Raise _ _ => false
  end.

(** The value a run returned, [d] if it raised. *)
Definition value_or {A : Type} (d : A) (r : result A) : A :=
  match r with
  | Ok a _ => a
  | Raise _ _ => d
  end.

(** The operation leaves the heap and the state as they are, whether it
    returns or raises. *)
Definition read_only {A : Type} (m : M A) : Prop :=
  forall w, result_world (m w) = w.

(** ** A schema with typed fields *)

(** A dataclass with fields of the types the default codec encodes. *)
Definition DataWithTypes : dataclass :=
  Dataclass "DataWithTypes"
    [mkField "my_enum" (Leaf (TEnum MyEnum)) None None;
     mkField "my_uuid" (Leaf TUUID) None None;
     mkField "my_enum_list" (Leaf (TListOf (TEnum MyEnum))) None None;
     mkField "my_enum_dict" (Leaf (TDictOf (TEnum MyEnum) (TEnum MyEnum))) None None;
     mkField "my_datetime" (Leaf TDatetime) None None;
     mkField "my_date" (Leaf TDate) None None;
     mkField "my_time" (Leaf TTime) None None].

(** ** Reading a proxy back as a dataclass instance *)

(** The call of a dataclass type with [kwargs] as keyword arguments, the
    [__init__] that [dataclass] generates: a keyword that is no field is a
    [TypeError]; a field without a keyword gets its default, and is a
    [TypeError] if it has none. The instance holds the fields in order. *)
Fixpoint init_fields (kwargs : list (string * pyval)) (fs : list Field)
  : outcome (list (string * pyval)) :=
  match fs with
  | [] => Return []
  | f :: fs' =>
      (value <- match dict_get kwargs (f_name f), default_value f with
                | Some v, _ => Return v
                | None, Some d => Return d
                | None, None => Raised TypeError
                end ;;
       attrs <- init_fields kwargs fs' ;;
       Return ((f_name f, value) :: attrs))%outcome
  end.

Definition dataclass_call (dataclass_type : dataclass)
    (kwargs : list (string * pyval)) : outcome pyval :=
  if forallb (fun kv => existsb (String.eqb (fst kv))
                                (map f_name (dc_fields dataclass_type))) kwargs
  then (attrs <- init_fields kwargs (dc_fields dataclass_type) ;;
        Return (VInstance (dc_name dataclass_type) attrs))%outcome
  else Raised TypeError.

(** [as_dataclass(instance)]. The recursion follows the references of the
    heap; [depth] is the number of nested calls the interpreter allows, and
    the call that exceeds it raises [RecursionError], a [RuntimeError]. An
    attribute that is an object other than a proxy instance is no value of
    this model. *)
Fixpoint as_dataclass (depth : nat) (instance : ref) {struct depth} : M pyval :=
  match depth with
  | O => raise RuntimeError
  | S depth =>
      dataclass_type <- _get_proxy_dataclass_type_or_raise (ORef instance) ;;
      kwargs <-
        (fix loop (fs : list Field) (kwargs : list (string * pyval))
           {struct fs} : M (list (string * pyval)) :=
           match fs with
           | [] => ret kwargs
           | f :: fs' =>
               attr <- getattr_ instance (f_name f) ;;
               is_proxy <- is_proxy_class attr ;;
               value <- match is_proxy, attr with
                        | true, ORef attr => as_dataclass depth attr
                        | _, OVal attr => ret attr
                        | _, ORef _ => raise Unmodelled
                        end ;;
               loop fs' (dict_set kwargs (f_name f) value)
           end) (dc_fields dataclass_type) [] ;;
      lift (dataclass_call dataclass_type kwargs)
  end.

(** The loop of [as_dataclass] on its own, with the function for the
    nested calls. *)
Section AsDataclassLoop.
Variable nested : ref -> M pyval.
Variable instance : ref.


Fixpoint as_dataclass_loop (fs : list Field) (kwargs : list (string * pyval))
    {struct fs} : M (list (string * pyval)) :=
  match fs with
  | [] => ret kwargs
  | f :: fs' =>
      attr <- getattr_ instance (f_name f) ;;
      is_proxy <- is_proxy_class attr ;;
      value <- match is_proxy, attr with
               | true, ORef attr => nested attr
               | _, OVal attr => ret attr
               | _, ORef _ => raise Unmodelled
               end ;;
      as_dataclass_loop fs' (dict_set kwargs (f_name f) value)
  end.
End AsDataclassLoop.









(** * Proofs *)

(** Splitting a conjunction into its parts, and nothing else. *)
Ltac conjs := repeat match goal with |- _ /\ _ => split end.

(** ** Runs that return, and reading without writing *)


Lemma read_only_ret {A : Type} (a : A) : read_only (ret a).
Proof. intros w. reflexivity. Qed.

Lemma read_only_raise {A : Type} (e : exn) : read_only (@raise A e).
Proof. intros w. reflexivity. Qed.

Lemma read_only_lift {A : Type} (o : outcome A) : read_only (lift o).
Proof. intros w. destruct o; reflexivity. Qed.

Lemma read_only_bind {A B : Type} (m : M A) (k : A -> M B) :
  read_only m -> (forall a, read_only (k a)) -> read_only (bind m k).
Proof.
  intros Hm Hk w. unfold bind. specialize (Hm w).
  destruct (m w) as [a w'|e w']; cbn [result_world] in *; subst w'.
  - apply Hk.
  - reflexivity.
Qed.

Lemma read_only_list_comp {A B : Type} (body : A -> M B) (l : list A) :
  (forall a, read_only (body a)) -> read_only (list_comp body l).
Proof.
  intros Hb. induction l as [|a l IH]; [apply read_only_ret |].
  cbn [list_comp]. apply read_only_bind; [apply Hb |].
  intros b. apply read_only_bind; [exact IH |]. intros bs. apply read_only_ret.
Qed.

Lemma read_only_state_getitem key : read_only (state_getitem key).
Proof. intros w. reflexivity. Qed.

Lemma read_only_get_value self : read_only (get_value self).
Proof.
  intros w. unfold get_value.
  destruct (heap w !! self) as [[sid nm [ty|dc] d encoder| | |]|]; try reflexivity.
  apply (read_only_bind (state_getitem sid)); [apply read_only_state_getitem |].
  intros value. apply read_only_lift.
Qed.

Lemma read_only_getattr_ instance name : read_only (getattr_ instance name).
Proof.
  intros w. unfold getattr_.
  destruct (heap w !! instance) as [[| | |cn ns dct fd sid]|]; try reflexivity.
  destruct (dict_get ns name) as [field|]; [|reflexivity].
  destruct (heap w !! field) as [[| | |]|]; try reflexivity.
  apply (read_only_bind (get_value field)); [apply read_only_get_value |].
  intros v. apply read_only_ret.
Qed.


Lemma read_only__get_proxy_dataclass_type instance :
  read_only (_get_proxy_dataclass_type instance).
Proof.
  intros w. unfold _get_proxy_dataclass_type. destruct instance as [v|r]; [reflexivity |].
  destruct (heap w !! r) as [[| | |]|]; reflexivity.
Qed.

Lemma read_only__get_proxy_dataclass_type_or_raise instance :
  read_only (_get_proxy_dataclass_type_or_raise instance).
Proof.
  apply read_only_bind; [apply read_only__get_proxy_dataclass_type |].
  intros [cls|]; [apply read_only_ret | apply read_only_raise].
Qed.

Lemma read_only_is_proxy_class instance : read_only (is_proxy_class instance).
Proof.
  apply read_only_bind; [apply read_only__get_proxy_dataclass_type |].
  intros cls. apply read_only_ret.
Qed.

Lemma read_only_get_state_id instance default :
  read_only (get_state_id instance default).
Proof.
  intros w. unfold get_state_id. destruct instance as [v|r]; [reflexivity |].
  destruct (heap w !! r) as [[| | |]|]; reflexivity.
Qed.

Lemma read_only_dict_items d : read_only (dict_items d).
Proof.
  intros w. unfold dict_items. destruct (heap w !! d) as [[| | |]|]; reflexivity.
Qed.

Lemma read_only_dict_getitem d k : read_only (dict_getitem d k).
Proof.
  apply read_only_bind; [apply read_only_dict_items |].
  intros items. destruct k as [[]|]; try apply read_only_raise.
  destruct (dict_get items s); [apply read_only_ret | apply read_only_raise].
Qed.

Lemma read_only_get_field_proxy_dict instance :
  read_only (get_field_proxy_dict instance).
Proof.
  intros w. unfold get_field_proxy_dict, _get_proxy_dataclass_type_or_raise,
              _get_proxy_dataclass_type, bind, ret, raise.
  destruct instance as [v|r]; [reflexivity |].
  destruct (heap w !! r) as [[| | |]|] eqn:E; try reflexivity.
  rewrite E. reflexivity.
Qed.

Lemma read_only_get_reactive_state_id_keys keys :
  read_only (get_reactive_state_id_keys keys).
Proof.
  induction keys as [|key keys IH]; [apply read_only_ret |].
  cbn [get_reactive_state_id_keys].
  apply read_only_bind; [apply read_only_is_proxy_class |]. intros is_proxy.
  apply read_only_bind.
  - destruct is_proxy; [|apply read_only_ret].
    apply read_only_bind; [apply read_only_get_field_proxy_dict |]. intros d.
    apply read_only_bind; [apply read_only_dict_items |]. intros items.
    apply read_only_ret.
  - intros react_keys. apply read_only_bind; [exact IH |].
    intros rest. apply read_only_ret.
Qed.

Lemma read_only_get_value_state_keys keys : read_only (get_value_state_keys keys).
Proof. apply read_only_list_comp. intros key. apply read_only_get_state_id. Qed.

Lemma read_only_bind_typed_state_change keys data :
  read_only (bind_typed_state_change keys data).
Proof.
  apply read_only_bind; [apply read_only_get_field_proxy_dict |]. intros d.
  cbv zeta.
  apply read_only_bind; [apply read_only_get_value_state_keys |]. intros vk.
  apply read_only_bind; [apply read_only_get_reactive_state_id_keys |]. intros rk.
  apply read_only_ret.
Qed.

Lemma read_only__on_state_change c : read_only (_on_state_change c).
Proof.
  apply read_only_bind.
  - apply read_only_list_comp. intros k. apply read_only_dict_getitem.
  - intros values. apply read_only_list_comp. intros v.
    apply read_only_bind; [apply read_only_is_proxy_class |].
    intros [|]; [apply read_only_ret |].
    apply read_only_bind; [apply read_only_get_value |]. intros x. apply read_only_ret.
Qed.

Lemma read_only_field_index instance : read_only (field_index instance).
Proof.
  apply read_only_bind; [apply read_only_get_field_proxy_dict |].
  intros d. apply read_only_dict_items.
Qed.


(** A run that raises cannot be the run that is seen to return. *)
Ltac absurd_raise H :=
  exfalso;
  match type of H with
  | ?run = Raise _ _ =>
      let Hr := fresh in
      assert (Hr : returned run = true) by (vm_compute; reflexivity);
      rewrite H in Hr; discriminate Hr
  end.

(** ** Induction principles and basic facts *)

Lemma list_sum_cons (a : nat) (l : list nat) :
  list_sum (a :: l) = a + list_sum l.
Proof. reflexivity. Qed.

Lemma list_all_Forall {A : Type} (P : A -> Prop) (l : list A) :
  list_all A P l -> Forall P l.
Proof. induction 1; constructor; assumption. Qed.

Lemma dataclass_ind' (P : dataclass -> Prop) :
  (forall c flds,
     Forall (fun f => match f_type f with Data dc => P dc | Leaf _ => True end) flds ->
     P (Dataclass c flds)) ->
  forall dc, P dc.
Proof.
  intros H.
  apply (dataclass_nested_ind P
           (fun f => match f_type f with Data dc => P dc | Leaf _ => True end)
           (fun t => match t with Data dc => P dc | Leaf _ => True end)).
  - intros c flds Hall. apply H. apply list_all_Forall. exact Hall.
  - intros n t Ht d1 d2. exact Ht.
  - intros ty. exact I.
  - intros dc Hdc. exact Hdc.
Qed.

Lemma ptree_ind' (P : ptree -> Prop) :
  (forall k r f, P (PLeaf k r f)) ->
  (forall k r fd dc kids, Forall P kids -> P (PNode k r fd dc kids)) ->
  forall t, P t.
Proof.
  intros HL HN. apply ptree_ind.
  - exact HL.
  - intros k r fd dc kids Hall. apply HN. apply list_all_Forall. exact Hall.
Qed.

Lemma built_kids leaf_obj sfx h kids :
  fold_right (fun kid P => built leaf_obj sfx h kid /\ P) True kids <->
  Forall (built leaf_obj sfx h) kids.
Proof.
  induction kids as [|t kids IH]; simpl.
  - split; [constructor | trivial].
  - rewrite IH. split.
    + intros [H1 H2]. constructor; assumption.
    + intros H. inversion H; subst. split; assumption.
Qed.

Lemma _build_proxy_cls_unfold c flds prefix handler sfx pfd :
  _build_proxy_cls (Dataclass c flds) prefix handler sfx pfd =
  (inner_field_dict <- alloc (PyDict []) ;;
   namespace <- build_fields handler sfx (node_prefix prefix c)
                             inner_field_dict flds [] ;;
   match pfd with
   | Some d => dict_update_obj d inner_field_dict
   | None => ret tt
   end ;;;
   proxy_instance <-
     alloc (ProxyInstance (c +:+ sfx) namespace (Dataclass c flds)
                          inner_field_dict (node_prefix prefix c)) ;;
   dict_setitem inner_field_dict (OVal (VStr (node_prefix prefix c))) proxy_instance ;;;
   ret proxy_instance)%py.
Proof. reflexivity. Qed.

Lemma shape_unfold c flds prefix n :
  shape (Dataclass c flds) prefix n =
  let kids := shape_fields (node_prefix prefix c) flds (S n) in
  PNode (node_prefix prefix c) (S n + list_sum (map psize kids)) n
        (Dataclass c flds) kids.
Proof. reflexivity. Qed.

(** ** The sizes and references of a shape *)

Lemma psize_shape_field_pos p f m : 0 < psize (shape_field p f m).
Proof.
  unfold shape_field. destruct (f_type f) as [ty|[c flds]].
  - simpl. lia.
  - rewrite shape_unfold. simpl. lia.
Qed.

Lemma shape_range dc :
  forall prefix n,
    Forall (fun i => n <= i < n + psize (shape dc prefix n))
           (prefs (shape dc prefix n)).
Proof.
  induction dc as [c flds IH] using dataclass_ind'. intros prefix n.
  rewrite shape_unfold. cbv zeta.
  set (p := node_prefix prefix c).
  assert (Hfs : forall m,
             Forall (fun i => m <= i < m + list_sum (map psize (shape_fields p flds m)))
                    (flat_map prefs (shape_fields p flds m))).
  { clear n. induction IH as [|f fs Hf _ IHfs]; intros m; simpl.
    - constructor.
    - apply Forall_app. split.
      + assert (Ht : Forall (fun i => m <= i < m + psize (shape_field p f m))
                            (prefs (shape_field p f m))).
        { unfold shape_field. destruct (f_type f) as [ty|dc'].
          - simpl. constructor; [lia | constructor].
          - apply Hf. }
        eapply Forall_impl; [exact Ht |]. simpl. intros i Hi. lia.
      + eapply Forall_impl; [apply IHfs |]. simpl. intros i Hi.
        pose proof (psize_shape_field_pos p f m). lia. }
  simpl. constructor; [lia |]. constructor; [lia |].
  eapply Forall_impl; [apply Hfs |]. simpl. intros i Hi. lia.
Qed.

Lemma shape_fields_range p fs m :
  Forall (fun i => m <= i < m + list_sum (map psize (shape_fields p fs m)))
         (flat_map prefs (shape_fields p fs m)).
Proof.
  revert m. induction fs as [|f fs IH]; intros m; simpl.
  - constructor.
  - apply Forall_app. split.
    + assert (Ht : Forall (fun i => m <= i < m + psize (shape_field p f m))
                          (prefs (shape_field p f m))).
      { unfold shape_field. destruct (f_type f) as [ty|dc'].
        - simpl. constructor; [lia | constructor].
        - apply shape_range. }
      eapply Forall_impl; [exact Ht |]. simpl. intros i Hi. lia.
    + eapply Forall_impl; [apply IH |]. simpl. intros i Hi.
      pose proof (psize_shape_field_pos p f m). lia.
Qed.

(** A tree stays in the heap as long as its objects are left alone. *)
Lemma built_stable leaf_obj sfx h h' t :
  (forall i, In i (prefs t) -> h' !! i = h !! i) ->
  built leaf_obj sfx h t -> built leaf_obj sfx h' t.
Proof.
  induction t as [k r f|k r fd dc kids IH] using ptree_ind'; intros Hsame Hb.
  - simpl in *. rewrite Hsame; [exact Hb | left; reflexivity].
  - simpl in Hb. destruct Hb as (Hr & Hfd & Hkids).
    simpl. split; [|split].
    + rewrite Hsame; [exact Hr | simpl; auto].
    + rewrite Hsame; [exact Hfd | simpl; auto].
    + apply built_kids. apply built_kids in Hkids.
      assert (Hs : forall i, In i (flat_map prefs kids) -> h' !! i = h !! i).
      { intros i Hi. apply Hsame. simpl. auto. }
      clear Hsame Hr Hfd.
      induction IH as [|t kids Ht _ IHk]; [constructor |].
      inversion Hkids; subst. constructor.
      * apply Ht; [|assumption]. intros i Hi. apply Hs. simpl.
        apply in_or_app. left. exact Hi.
      * apply IHk; [assumption |]. intros i Hi. apply Hs. simpl.
        apply in_or_app. right. exact Hi.
Qed.

(** ** What a build does to the world *)

Section BuildSpec.
(** The leaf handler, the descriptor it makes, and what it does to the
    state; [R] relates the state before a handler call to the state
    after it, also when the call raises. *)
Variable handler : string -> Field -> M ref.
Variable leaf_obj : string -> Field -> obj.
Variable sfx : string.
Variable hstate : string -> Field -> gmap string pyval -> gmap string pyval.
Variable R : gmap string pyval -> gmap string pyval -> Prop.
Hypothesis R_refl : forall s, R s s.
Hypothesis R_trans : forall a b c, R a b -> R b c -> R a c.
Hypothesis hstate_R : forall sid f s, R s (hstate sid f s).
Hypothesis handler_ok : forall sid f w r w',
    handler sid f w = Ok r w' ->
    r = length (heap w) /\ heap w' = heap w ++ [leaf_obj sid f]
    /\ state w' = hstate sid f (state w).
Hypothesis handler_raise : forall sid f w e w',
    handler sid f w = Raise e w' -> R (state w) (state w').
Hypothesis leaf_obj_plain : forall sid f,
    match leaf_obj sid f with
    | ProxyInstance _ _ _ _ _ => False
    | _ => True
    end.

(** The state after the handler ran on the given leaves in order. *)
Definition run_leaves (ls : list (string * Field)) (s : gmap string pyval)
  : gmap string pyval :=
  fold_left (fun s kf => hstate (fst kf) (snd kf) s) ls s.

Lemma run_leaves_R ls s : R s (run_leaves ls s).
Proof.
  revert s. induction ls as [|kf ls IH]; intros s; simpl.
  - apply R_refl.
  - eapply R_trans; [apply hstate_R | apply IH].
Qed.

(** The parent's dict that a build is given exists already. *)
Definition build_pre (pfd : option ref) (w : world) : Prop :=
  match pfd with
  | Some d => exists old, heap w !! d = Some (PyDict old)
  | None => True
  end.

(** What a build of the tree [t] from the world [w] results in. *)
Definition build_post (pfd : option ref) (w : world) (t : ptree)
    (res : result ref) : Prop :=
  match res with
  | Ok r w' =>
      r = pref t
      /\ length (heap w') = length (heap w) + psize t
      /\ built leaf_obj sfx (heap w') t
      /\ (forall i, i < length (heap w) -> pfd <> Some i ->
                    heap w' !! i = heap w !! i)
      /\ (forall d old, pfd = Some d -> heap w !! d = Some (PyDict old) ->
                        heap w' !! d = Some (PyDict (dict_update old (inner_items t))))
      /\ state w' = run_leaves (leaves t) (state w)
  | Raise e w' =>
      R (state w) (state w')
      /\ exists sid f w1, handler sid f w1 = Raise e w'
  end.

Lemma get_state_id_built w t default :
  built leaf_obj sfx (heap w) t ->
  (forall k r f, t = PLeaf k r f -> default = k) ->
  get_state_id (ORef (pref t)) (OVal (VStr default)) w = Ok (OVal (VStr (pkey t))) w.
Proof.
  intros Hb Hd. unfold get_state_id. destruct t as [k r f|k r fd dc kids]; simpl in *.
  - rewrite Hb. rewrite (Hd k r f eq_refl).
    pose proof (leaf_obj_plain k f) as Hp.
    destruct (leaf_obj k f); try reflexivity. contradiction.
  - destruct Hb as (Hr & _). rewrite Hr. reflexivity.
Qed.

(** One field: the handler on a leaf, a nested build on a dataclass. *)
Lemma build_field_spec p f inner w :
  (forall dc, f_type f = Data dc -> forall prefix pfd w,
      build_pre pfd w ->
      build_post pfd w (shape dc prefix (length (heap w)))
                 (_build_proxy_cls dc prefix handler sfx pfd w)) ->
  build_pre (Some inner) w ->
  build_post (Some inner) w (shape_field p f (length (heap w)))
    (match f_type f with
     | Data dc => _build_proxy_cls dc (p +:+ "__" +:+ f_name f) handler sfx (Some inner)
     | Leaf _ => handler (p +:+ "__" +:+ f_name f) f
     end w).
Proof.
  intros IH Hpre. unfold shape_field.
  destruct (f_type f) as [ty|dc] eqn:Hty.
  - destruct (handler (p +:+ "__" +:+ f_name f) f w) as [r w'|e w'] eqn:Hh.
    + apply handler_ok in Hh. destruct Hh as (Hr & Hheap & Hst).
      simpl. rewrite Hheap. conjs.
      * exact Hr.
      * rewrite length_app. simpl. lia.
      * rewrite lookup_app_r by lia. rewrite Nat.sub_diag. reflexivity.
      * intros i Hi _. apply lookup_app_l. exact Hi.
      * intros d old [= <-] Hold. rewrite lookup_app_l.
        -- exact Hold.
        -- apply lookup_lt_Some in Hold. exact Hold.
      * exact Hst.
    + simpl. split.
      * eapply handler_raise. exact Hh.
      * eauto.
  - apply (IH dc eq_refl). exact Hpre.
Qed.

(** The loop over the fields, started with the field dict holding
    [items] and the namespace [ns]. *)
Definition fields_post (inner : ref) (items ns : list (string * ref))
    (p : string) (fs : list Field) (w : world)
    (res : result (list (string * ref))) : Prop :=
  let m := length (heap w) in
  let ts := shape_fields p fs m in
  match res with
  | Ok ns' w' =>
      ns' = dict_update ns (combine (map f_name fs) (map pref ts))
      /\ length (heap w') = m + list_sum (map psize ts)
      /\ Forall (built leaf_obj sfx (heap w')) ts
      /\ heap w' !! inner =
           Some (PyDict (fold_left
                           (fun acc kid =>
                              dict_set (dict_update acc (inner_items kid))
                                       (pkey kid) (pref kid))
                           ts items))
      /\ (forall i, i < m -> i <> inner -> heap w' !! i = heap w !! i)
      /\ state w' = run_leaves (flat_map leaves ts) (state w)
  | Raise e w' =>
      R (state w) (state w')
      /\ exists sid f w1, handler sid f w1 = Raise e w'
  end.

Lemma build_fields_spec p inner fs :
  Forall (fun f => match f_type f with
                   | Data dc => forall prefix pfd w,
                       build_pre pfd w ->
                       build_post pfd w (shape dc prefix (length (heap w)))
                                  (_build_proxy_cls dc prefix handler sfx pfd w)
                   | Leaf _ => True
                   end) fs ->
  forall ns items w,
    heap w !! inner = Some (PyDict items) ->
    fields_post inner items ns p fs w (build_fields handler sfx p inner fs ns w).
Proof.
  induction 1 as [|f fs Hf _ IHfs]; intros ns items w Hinner.
  - simpl. unfold fields_post, ret. simpl. conjs; try reflexivity.
    + lia.
    + constructor.
    + exact Hinner.
  - assert (Hfield := build_field_spec p f inner w).
    assert (IHf : forall dc, f_type f = Data dc -> forall prefix pfd w,
               build_pre pfd w ->
               build_post pfd w (shape dc prefix (length (heap w)))
                          (_build_proxy_cls dc prefix handler sfx pfd w)).
    { intros dc Hdc. rewrite Hdc in Hf. exact Hf. }
    specialize (Hfield IHf (ex_intro _ items Hinner)). clear IHf Hf.
    cbn [build_fields]. unfold bind at 1.
    set (t := shape_field p f (length (heap w))) in *.
    destruct (match f_type f with
              | Leaf _ => handler (p +:+ "__" +:+ f_name f) f
              | Data dc => _build_proxy_cls dc (p +:+ "__" +:+ f_name f) handler sfx (Some inner)
              end w) as [r w1|e w1] eqn:Hrun.
    2:{ unfold fields_post. exact Hfield. }
    destruct Hfield as (Hr & Hlen & Hb & Hframe & Hdict & Hst).
    subst r. unfold bind at 1.
    rewrite (get_state_id_built w1 t (p +:+ "__" +:+ f_name f) Hb).
    2:{ intros k r f' Heq. subst t. unfold shape_field in Heq.
        destruct (f_type f) as [ty|[c flds]].
        - injection Heq as <- _ _. reflexivity.
        - rewrite shape_unfold in Heq. discriminate. }
    specialize (Hdict inner items eq_refl Hinner).
    unfold bind at 1. unfold dict_setitem at 1. rewrite Hdict.
    set (items' := dict_set (dict_update items (inner_items t)) (pkey t) (pref t)).
    set (w2 := World (<[inner := PyDict items']> (heap w1)) (state w1)).
    assert (Hin_lt : inner < length (heap w1)).
    { apply lookup_lt_Some in Hdict. exact Hdict. }
    assert (Hinner2 : heap w2 !! inner = Some (PyDict items')).
    { simpl. apply list_lookup_insert_eq. exact Hin_lt. }
    specialize (IHfs (dict_set ns (f_name f) (pref t)) items' w2 Hinner2).
    assert (Hlen2 : length (heap w2) = length (heap w) + psize t).
    { simpl. rewrite length_insert. exact Hlen. }
    destruct (build_fields handler sfx p inner fs
                (dict_set ns (f_name f) (pref t)) w2) as [ns' w'|e w'] eqn:Hrest.
    + unfold fields_post in IHfs |- *. cbn [shape_fields]. fold t.
      rewrite Hlen2 in IHfs.
      destruct IHfs as (Hns & Hlen' & Hbs & Hd' & Hframe' & Hst').
      conjs.
      * exact Hns.
      * cbn [map]. rewrite list_sum_cons. lia.
      * constructor; [|exact Hbs].
        eapply built_stable; [|exact Hb].
        intros i Hi.
        assert (Hrange : length (heap w) <= i < length (heap w) + psize t).
        { pose proof (shape_fields_range p [f] (length (heap w))) as Hrg.
          cbn [shape_fields flat_map map] in Hrg. fold t in Hrg.
          rewrite list_sum_cons in Hrg. cbn [list_sum fold_right] in Hrg.
          rewrite app_nil_r in Hrg. rewrite List.Forall_forall in Hrg.
          specialize (Hrg i Hi). lia. }
        apply lookup_lt_Some in Hinner.
        rewrite Hframe' by lia. simpl.
        apply list_lookup_insert_ne. lia.
      * exact Hd'.
      * intros i Hi Hne. rewrite Hframe' by lia. simpl.
        rewrite list_lookup_insert_ne by auto.
        apply Hframe; [exact Hi | congruence].
      * rewrite Hst'. simpl. unfold run_leaves. rewrite fold_left_app.
        f_equal. exact Hst.
    + unfold fields_post in IHfs |- *.
      destruct IHfs as (HR & Hex). split; [|exact Hex].
      eapply R_trans; [|exact HR]. simpl. rewrite Hst. apply run_leaves_R.
Qed.

(** The build of a dataclass type. *)
Lemma build_spec dc :
  forall prefix pfd w,
    build_pre pfd w ->
    build_post pfd w (shape dc prefix (length (heap w)))
               (_build_proxy_cls dc prefix handler sfx pfd w).
Proof.
  induction dc as [c flds IH] using dataclass_ind'. intros prefix pfd w Hpre.
  rewrite _build_proxy_cls_unfold, shape_unfold. cbv zeta.
  set (p := node_prefix prefix c).
  set (n := length (heap w)).
  unfold bind at 1. unfold alloc at 1. fold n.
  set (w1 := World (heap w ++ [PyDict []]) (state w)).
  assert (Hinner1 : heap w1 !! n = Some (PyDict [])).
  { simpl. rewrite lookup_app_r by (unfold n; lia).
    unfold n. rewrite Nat.sub_diag. reflexivity. }
  assert (Hlen1 : length (heap w1) = S n).
  { simpl. rewrite length_app. simpl. unfold n. lia. }
  pose proof (build_fields_spec p n flds IH [] [] w1 Hinner1) as Hfs.
  unfold bind at 1.
  destruct (build_fields handler sfx p n flds [] w1) as [ns w2|e w2] eqn:Hrun.
  2:{ exact Hfs. }
  unfold fields_post in Hfs. rewrite Hlen1 in Hfs.
  set (ts := shape_fields p flds (S n)) in *.
  destruct Hfs as (Hns & Hlen2 & Hbs & Hd2 & Hframe2 & Hst2).
  set (t := PNode p (S n + list_sum (map psize ts)) n (Dataclass c flds) ts).
  assert (Hitems : fold_left
                     (fun acc kid =>
                        dict_set (dict_update acc (inner_items kid))
                                 (pkey kid) (pref kid)) ts [] = inner_items t)
    by reflexivity.
  rewrite Hitems in Hd2.
  assert (Hn2 : n < length (heap w2)) by lia.
  (* the update of the parent's dict *)
  assert (Hupd : exists w3,
             match pfd with
             | Some d => dict_update_obj d n
             | None => ret tt
             end w2 = Ok tt w3
             /\ length (heap w3) = length (heap w2)
             /\ state w3 = state w2
             /\ (forall i, pfd <> Some i -> heap w3 !! i = heap w2 !! i)
             /\ (forall d old, pfd = Some d -> heap w !! d = Some (PyDict old) ->
                    heap w3 !! d = Some (PyDict (dict_update old (inner_items t))))).
  { destruct pfd as [d|].
    - destruct Hpre as [old Hold].
      assert (Hdn : d < n) by (apply lookup_lt_Some in Hold; exact Hold).
      assert (Hd2' : heap w2 !! d = Some (PyDict old)).
      { rewrite Hframe2 by lia. simpl. rewrite lookup_app_l by exact Hdn. exact Hold. }
      eexists. unfold dict_update_obj, bind, dict_items. rewrite Hd2, Hd2'.
      split; [reflexivity |]. simpl. conjs.
      + apply length_insert.
      + reflexivity.
      + intros i Hi. apply list_lookup_insert_ne. congruence.
      + intros d' old' [= <-] Hold'. rewrite Hold in Hold'. injection Hold' as <-.
        apply list_lookup_insert_eq. lia.
    - exists w2. conjs; try reflexivity. intros d old Hd. discriminate. }
  destruct Hupd as (w3 & Hrun3 & Hlen3 & Hst3 & Hframe3 & Hpfd3).
  unfold bind at 1. rewrite Hrun3.
  unfold bind at 1. unfold alloc at 1.
  set (r := length (heap w3)).
  set (inst := ProxyInstance (c +:+ sfx) ns (Dataclass c flds) n p).
  set (w4 := World (heap w3 ++ [inst]) (state w3)).
  assert (Hne : pfd <> Some n).
  { destruct pfd as [d|]; [|discriminate]. destruct Hpre as [old Hold].
    apply lookup_lt_Some in Hold. fold n in Hold. intros [= ->]. lia. }
  assert (Hd4 : heap w4 !! n = Some (PyDict (inner_items t))).
  { simpl. rewrite lookup_app_l by lia. rewrite Hframe3 by exact Hne. exact Hd2. }
  unfold bind at 1. unfold dict_setitem at 1. rewrite Hd4.
  unfold bind, ret. unfold build_post.
  assert (Hr : r = pref t) by (unfold r; simpl; lia).
  cbn [heap state].
  conjs.
  - exact Hr.
  - rewrite length_insert. simpl. rewrite length_app. simpl.
    change (list_sum (map psize ts)) with (list_sum (map psize ts)). lia.
  - unfold t at 2. cbn [built]. fold t. conjs.
    + rewrite list_lookup_insert_ne by (simpl; lia).
      unfold w4. cbn [heap]. rewrite lookup_app_r by lia.
      replace (S n + list_sum (map psize ts) - length (heap w3)) with 0 by lia.
      simpl. unfold inst, namespace_of. rewrite Hns. reflexivity.
    + replace (field_items t) with (dict_set (inner_items t) p r)
        by (rewrite Hr; reflexivity).
      apply list_lookup_insert_eq. simpl. rewrite length_app. lia.
    + apply built_kids. rewrite List.Forall_forall in Hbs |- *.
      intros kid Hkid. eapply built_stable; [|apply Hbs; exact Hkid].
      intros i Hi.
      assert (Hrange : S n <= i < S n + list_sum (map psize ts)).
      { pose proof (shape_fields_range p flds (S n)) as Hrg. fold ts in Hrg.
        rewrite List.Forall_forall in Hrg. apply Hrg.
        apply in_flat_map. exists kid. split; assumption. }
      rewrite list_lookup_insert_ne by lia.
      simpl. rewrite lookup_app_l by lia.
      apply Hframe3. destruct pfd as [d|]; [|discriminate].
      destruct Hpre as [old Hold]. apply lookup_lt_Some in Hold. fold n in Hold.
      intros [= ->]. lia.
  - intros i Hi Hpi. fold n in Hi.
    rewrite list_lookup_insert_ne by lia.
    simpl. rewrite lookup_app_l by lia.
    rewrite Hframe3 by exact Hpi. rewrite Hframe2 by lia.
    simpl. apply lookup_app_l. exact Hi.
  - intros d old Hd Hold.
    assert (Hdn : d < n) by (apply lookup_lt_Some in Hold; exact Hold).
    rewrite list_lookup_insert_ne by lia.
    simpl. rewrite lookup_app_l by lia.
    apply Hpfd3; assumption.
  - unfold w4. cbn [state]. rewrite Hst3, Hst2. reflexivity.
Qed.
End BuildSpec.

(** ** Insertion-ordered dictionaries *)

Lemma existsb_eqb_In (k : string) (ks : list string) :
  existsb (String.eqb k) ks = true <-> In k ks.
Proof.
  rewrite existsb_exists. split.
  - intros (x & Hx & Heq). apply String.eqb_eq in Heq. subst. exact Hx.
  - intros H. exists k. split; [exact H | apply String.eqb_refl].
Qed.

Lemma add_key_In ks k : In k ks -> add_key ks k = ks.
Proof.
  intros H. unfold add_key. apply existsb_eqb_In in H. rewrite H. reflexivity.
Qed.

Lemma add_key_notin ks k : ~ In k ks -> add_key ks k = ks ++ [k].
Proof.
  intros H. unfold add_key.
  destruct (existsb (String.eqb k) ks) eqn:E; [|reflexivity].
  apply existsb_eqb_In in E. contradiction.
Qed.

Lemma add_key_cons k' ks k :
  add_key (k' :: ks) k = if String.eqb k' k then k' :: ks else k' :: add_key ks k.
Proof.
  unfold add_key. simpl. rewrite (String.eqb_sym k k').
  destruct (String.eqb k' k); simpl; [reflexivity |].
  destruct (existsb (String.eqb k) ks); reflexivity.
Qed.

Lemma dict_keys_set {V : Type} (d : list (string * V)) k v :
  dict_keys (dict_set d k v) = add_key (dict_keys d) k.
Proof.
  induction d as [|[k' v'] d IH]; simpl.
  - reflexivity.
  - rewrite add_key_cons. destruct (String.eqb k' k); simpl.
    + reflexivity.
    + f_equal. exact IH.
Qed.

Lemma dict_keys_update {V : Type} (l d : list (string * V)) :
  dict_keys (dict_update d l) = fold_left add_key (dict_keys l) (dict_keys d).
Proof.
  unfold dict_update. revert d. induction l as [|[k v] l IH]; intros d; simpl.
  - reflexivity.
  - rewrite IH. rewrite dict_keys_set. reflexivity.
Qed.

Lemma add_keys_incl l ks k : In k ks -> In k (fold_left add_key l ks).
Proof.
  revert ks. induction l as [|x l IH]; intros ks H; simpl; [exact H |].
  apply IH. unfold add_key. destruct (existsb (String.eqb x) ks); [exact H |].
  apply in_or_app. left. exact H.
Qed.

(** Updating with the keys of a dict gives what updating with the keys it
    was assigned gives. *)
Lemma add_keys_add_keys l ks0 ks :
  fold_left add_key (fold_left add_key l ks0) ks =
  fold_left add_key l (fold_left add_key ks0 ks).
Proof.
  revert ks0. induction l as [|k l IH]; intros ks0; simpl; [reflexivity |].
  rewrite IH. f_equal.
  destruct (in_dec string_dec k ks0) as [Hin|Hnin].
  - rewrite (add_key_In ks0 k Hin).
    rewrite add_key_In; [reflexivity |].
    clear IH. revert ks. induction ks0 as [|x ks0 IH0]; intros ks; [destruct Hin |].
    simpl. destruct Hin as [->|Hin].
    + apply add_keys_incl. unfold add_key.
      destruct (existsb (String.eqb k) ks) eqn:E.
      * apply existsb_eqb_In. exact E.
      * apply in_or_app. right. left. reflexivity.
    + apply IH0. exact Hin.
  - rewrite (add_key_notin ks0 k Hnin). rewrite fold_left_app. reflexivity.
Qed.

Lemma add_keys_nodup l ks :
  NoDup (ks ++ l) -> fold_left add_key l ks = ks ++ l.
Proof.
  revert ks. induction l as [|k l IH]; intros ks H; simpl.
  - rewrite app_nil_r. reflexivity.
  - assert (Hk : ~ In k ks).
    { intros Hin. apply NoDup_app in H. destruct H as (_ & Hdis & _).
      apply (Hdis k); [apply list_elem_of_In; exact Hin | left]. }
    rewrite (add_key_notin ks k Hk).
    rewrite IH.
    + rewrite <- app_assoc. reflexivity.
    + rewrite <- app_assoc. exact H.
Qed.

Lemma first_occurrences_nodup l : NoDup l -> first_occurrences l = l.
Proof. intros H. unfold first_occurrences. apply (add_keys_nodup l []). exact H. Qed.

Lemma add_keys_length l ks :
  length (fold_left add_key l ks) <= length ks + length l.
Proof.
  revert ks. induction l as [|k l IH]; intros ks; simpl; [lia |].
  specialize (IH (add_key ks k)). unfold add_key in *.
  destruct (existsb (String.eqb k) ks); [lia |].
  rewrite length_app in IH. simpl in IH. lia.
Qed.

Lemma dict_set_fresh {V : Type} (d : list (string * V)) k v :
  ~ In k (dict_keys d) -> dict_set d k v = d ++ [(k, v)].
Proof.
  induction d as [|[k' v'] d IH]; simpl; intros H; [reflexivity |].
  destruct (String.eqb_spec k' k) as [->|Hne].
  - exfalso. apply H. left. reflexivity.
  - f_equal. apply IH. intros Hin. apply H. right. exact Hin.
Qed.

Lemma dict_update_fresh {V : Type} (l d : list (string * V)) :
  NoDup (dict_keys d ++ dict_keys l) -> dict_update d l = d ++ l.
Proof.
  unfold dict_update. revert d. induction l as [|[k v] l IH]; intros d H; simpl.
  - rewrite app_nil_r. reflexivity.
  - assert (Hk : ~ In k (dict_keys d)).
    { intros Hin. simpl in H. apply NoDup_app in H. destruct H as (_ & Hdis & _).
      apply (Hdis k); [apply list_elem_of_In; exact Hin | left]. }
    rewrite (dict_set_fresh d k v Hk). rewrite IH.
    + rewrite <- app_assoc. reflexivity.
    + unfold dict_keys in *. rewrite map_app. simpl. rewrite <- app_assoc. exact H.
Qed.

Lemma dict_get_In {V : Type} (l : list (string * V)) k v :
  NoDup (dict_keys l) -> In (k, v) l -> dict_get l k = Some v.
Proof.
  induction l as [|[k' v'] l IH]; simpl; intros Hnd Hin; [destruct Hin |].
  apply NoDup_cons in Hnd. destruct Hnd as [Hx Hnd'].
  destruct Hin as [[= -> ->]|Hin].
  - rewrite String.eqb_refl. reflexivity.
  - destruct (String.eqb_spec k' k) as [->|Hne].
    + exfalso. apply Hx. apply list_elem_of_In.
      apply (in_map fst) in Hin. exact Hin.
    + apply IH; assumption.
Qed.

Lemma dict_get_Some_In {V : Type} (l : list (string * V)) k v :
  dict_get l k = Some v -> In (k, v) l.
Proof.
  induction l as [|[k' v'] l IH]; simpl; intros H; [discriminate |].
  destruct (String.eqb_spec k' k) as [->|Hne].
  - injection H as ->. left. reflexivity.
  - right. apply IH. exact H.
Qed.

(** ** The field dict of a tree *)

Lemma entries_split t :
  entries t = flat_map entries (pkids t) ++ [(pkey t, pref t)].
Proof. destruct t; reflexivity. Qed.

Lemma dict_keys_app {V : Type} (a b : list (string * V)) :
  dict_keys (a ++ b) = dict_keys a ++ dict_keys b.
Proof. apply map_app. Qed.

(** The keys of a field dict: the keys of the entries, each at its first
    place. *)
Lemma inner_items_keys t :
  dict_keys (inner_items t) =
  first_occurrences (dict_keys (flat_map entries (pkids t))).
Proof.
  induction t as [k r f|k r fd dc kids IH] using ptree_ind'; [reflexivity |].
  cbn [inner_items pkids]. unfold first_occurrences.
  change (@nil string) with (dict_keys (@nil (string * ref))).
  generalize (@nil (string * ref)) as acc.
  induction IH as [|kid kids Hkid _ IHkids]; intros acc; simpl; [reflexivity |].
  rewrite IHkids. rewrite dict_keys_app, fold_left_app. f_equal.
  rewrite dict_keys_set, dict_keys_update, Hkid.
  unfold first_occurrences. rewrite add_keys_add_keys. cbn [fold_left].
  rewrite (entries_split kid), dict_keys_app, fold_left_app. reflexivity.
Qed.

Lemma field_items_keys t :
  dict_keys (field_items t) = first_occurrences (dict_keys (entries t)).
Proof.
  unfold field_items. rewrite dict_keys_set, inner_items_keys.
  rewrite (entries_split t), dict_keys_app. unfold first_occurrences.
  rewrite fold_left_app. reflexivity.
Qed.

(** With distinct keys, a field dict holds the entries as they are. *)
Lemma inner_items_nodup t :
  NoDup (dict_keys (entries t)) ->
  inner_items t = flat_map entries (pkids t).
Proof.
  induction t as [k r f|k r fd dc kids IH] using ptree_ind'; [reflexivity |].
  intros Hnd. cbn [inner_items pkids].
  rewrite entries_split, dict_keys_app in Hnd. cbn [pkids] in Hnd.
  apply NoDup_app in Hnd. destruct Hnd as (Hnd & _ & _).
  change (flat_map entries kids) with ([] ++ flat_map entries kids).
  change (dict_keys (flat_map entries kids))
    with (dict_keys (@nil (string * ref)) ++ dict_keys (flat_map entries kids)) in Hnd.
  revert Hnd. generalize (@nil (string * ref)) as acc.
  induction IH as [|kid kids Hkid _ IHkids]; intros acc Hnd; simpl.
  - rewrite app_nil_r. reflexivity.
  - simpl in Hnd. rewrite dict_keys_app in Hnd.
    assert (Hnd1 : NoDup (dict_keys acc ++ dict_keys (entries kid))).
    { rewrite app_assoc in Hnd. apply NoDup_app in Hnd. tauto. }
    assert (Hk : NoDup (dict_keys (entries kid))).
    { apply NoDup_app in Hnd1. tauto. }
    specialize (Hkid Hk).
    assert (Hstep : dict_set (dict_update acc (inner_items kid)) (pkey kid) (pref kid)
                    = acc ++ entries kid).
    { rewrite Hkid. rewrite (entries_split kid) in Hnd1 |- *.
      rewrite dict_keys_app, app_assoc in Hnd1.
      rewrite dict_update_fresh.
      - rewrite dict_set_fresh.
        + rewrite <- app_assoc. reflexivity.
        + rewrite dict_keys_app. intros Hin.
          apply NoDup_app in Hnd1. destruct Hnd1 as (_ & Hdis & _).
          apply (Hdis (pkey kid)); [apply list_elem_of_In; exact Hin | left].
      - apply NoDup_app in Hnd1. tauto. }
    rewrite Hstep. rewrite IHkids.
    + rewrite <- app_assoc. reflexivity.
    + rewrite dict_keys_app, <- app_assoc. exact Hnd.
Qed.

Lemma field_items_nodup t :
  NoDup (dict_keys (entries t)) -> field_items t = entries t.
Proof.
  intros Hnd. unfold field_items. rewrite (inner_items_nodup t Hnd).
  rewrite (entries_split t) in Hnd |- *.
  apply dict_set_fresh. rewrite dict_keys_app in Hnd.
  apply NoDup_app in Hnd. destruct Hnd as (_ & Hdis & _).
  intros Hin. apply (Hdis (pkey t)); [apply list_elem_of_In; exact Hin | left].
Qed.

(** The keys of the entries are the keys of the schema. *)
Lemma entries_keys dc :
  forall prefix n, dict_keys (entries (shape dc prefix n)) = schema_keys dc prefix.
Proof.
  induction dc as [c flds IH] using dataclass_ind'. intros prefix n.
  rewrite shape_unfold. cbv zeta. cbn [entries schema_keys].
  rewrite dict_keys_app. f_equal.
  generalize (S n) as m. set (p := node_prefix prefix c).
  induction IH as [|f fs Hf _ IHfs]; intros m; simpl; [reflexivity |].
  rewrite dict_keys_app, IHfs. f_equal.
  unfold shape_field. destruct (f_type f) as [ty|dc']; [reflexivity |].
  apply Hf.
Qed.

Lemma schema_keys_length dc :
  forall prefix, length (schema_keys dc prefix) = count_leaves dc + count_records dc.
Proof.
  induction dc as [c flds IH] using dataclass_ind'. intros prefix.
  cbn [schema_keys count_leaves count_records].
  rewrite length_app. simpl.
  set (p := node_prefix prefix c).
  assert (H : length (flat_map (fun f => match f_type f with
                                         | Leaf _ => [p +:+ "__" +:+ f_name f]
                                         | Data dc' => schema_keys dc' (p +:+ "__" +:+ f_name f)
                                         end) flds)
              = list_sum (map (fun f => match f_type f with
                                        | Leaf _ => 1
                                        | Data dc' => count_leaves dc'
                                        end) flds)
                + list_sum (map (fun f => match f_type f with
                                          | Leaf _ => 0
                                          | Data dc' => count_records dc'
                                          end) flds)).
  { induction IH as [|f fs Hf _ IHfs]; [reflexivity |].
    cbn [flat_map map]. rewrite length_app, IHfs. rewrite !list_sum_cons.
    destruct (f_type f) as [ty|dc']; [simpl; lia |].
    rewrite Hf. lia. }
  lia.
Qed.

(** ** Paths in a built tree *)

Lemma wf_dataclass_unfold c flds :
  wf_dataclass (Dataclass c flds) <->
  NoDup (map f_name flds)
  /\ Forall (fun f => match f_type f with
                      | Data dc' => wf_dataclass dc'
                      | Leaf _ => True
                      end) flds.
Proof.
  cbn [wf_dataclass]. apply and_iff_compat_l.
  induction flds as [|f fs IH]; simpl.
  - split; [constructor | trivial].
  - rewrite IH. split.
    + intros [H1 H2]. constructor; assumption.
    + intros H. inversion H; subst. split; assumption.
Qed.

Lemma shape_fields_length p fs m : length (shape_fields p fs m) = length fs.
Proof.
  revert m. induction fs as [|f fs IH]; intros m; simpl; [reflexivity |].
  rewrite IH. reflexivity.
Qed.

Lemma dict_keys_combine {V : Type} (ks : list string) (vs : list V) :
  length ks = length vs -> dict_keys (combine ks vs) = ks.
Proof.
  revert vs. induction ks as [|k ks IH]; intros [|v vs]; simpl; intros H;
    try reflexivity; try discriminate.
  f_equal. apply IH. lia.
Qed.

Lemma namespace_of_nodup c flds kids :
  NoDup (map f_name flds) -> length kids = length flds ->
  namespace_of (Dataclass c flds) kids = combine (map f_name flds) (map pref kids).
Proof.
  intros Hnd Hlen. unfold namespace_of. cbn [dc_fields].
  rewrite dict_update_fresh; [reflexivity |].
  simpl. rewrite dict_keys_combine; [exact Hnd |].
  rewrite !length_map. lia.
Qed.

(** Looking a field up by name in the namespace of a node. *)
Lemma namespace_lookup p name flds :
  forall m,
    match find_field name flds with
    | Some f =>
        exists m', In (shape_field p f m') (shape_fields p flds m)
                   /\ In f flds /\ f_name f = name
                   /\ dict_get (combine (map f_name flds)
                                        (map pref (shape_fields p flds m))) name
                      = Some (pref (shape_field p f m'))
    | None =>
        dict_get (combine (map f_name flds)
                          (map pref (shape_fields p flds m))) name = None
    end.
Proof.
  unfold find_field. induction flds as [|f fs IH]; intros m; simpl; [reflexivity |].
  destruct (String.eqb_spec (f_name f) name) as [Heq|Hne].
  - exists m. conjs; auto.
  - specialize (IH (m + psize (shape_field p f m))).
    destruct (find (fun f0 => String.eqb (f_name f0) name) fs) as [g|].
    + destruct IH as (m' & Hin & Hg & Hname & Hget). exists m'. conjs; auto.
    + exact IH.
Qed.

Section BuiltPaths.
Variable leaf_obj : string -> Field -> obj.
Variable sfx : string.
Hypothesis leaf_obj_plain : forall sid f,
    match leaf_obj sid f with
    | ProxyInstance _ _ _ _ _ => False
    | _ => True
    end.

(** What a path resolves to in the heap is what it leads to in the
    schema; the entries of a nested tree are entries of the whole tree. *)
Lemma built_at h path :
  forall dc prefix n,
    wf_dataclass dc ->
    built leaf_obj sfx h (shape dc prefix n) ->
    match schema_at dc prefix path with
    | Some (AtLeaf sid f) =>
        exists a, resolve h (pref (shape dc prefix n)) path = Some a
                  /\ h !! a = Some (leaf_obj sid f)
                  /\ In (sid, a) (entries (shape dc prefix n))
    | Some (AtNode dc' prefix') =>
        exists n', resolve h (pref (shape dc prefix n)) path
                   = Some (pref (shape dc' prefix' n'))
                   /\ built leaf_obj sfx h (shape dc' prefix' n')
                   /\ wf_dataclass dc'
                   /\ incl (entries (shape dc' prefix' n'))
                           (entries (shape dc prefix n))
    | None => resolve h (pref (shape dc prefix n)) path = None
    end.
Proof.
  induction path as [|name rest IH]; intros dc prefix n Hwf Hb.
  - simpl. exists n. conjs; auto. apply incl_refl.
  - destruct dc as [c flds]. cbn [schema_at dc_fields dc_name].
    rewrite shape_unfold in Hb |- *. cbv zeta in Hb |- *.
    set (p := node_prefix prefix c) in *.
    set (ts := shape_fields p flds (S n)) in *.
    cbn [built] in Hb. destruct Hb as (Hr & Hfd & Hkids).
    apply built_kids in Hkids.
    apply wf_dataclass_unfold in Hwf. destruct Hwf as [Hnd Hwfs].
    cbn [pref resolve]. rewrite Hr.
    rewrite namespace_of_nodup;
      [|exact Hnd | unfold ts; apply shape_fields_length].
    pose proof (namespace_lookup p name flds (S n)) as Hlook. fold ts in Hlook.
    destruct (find_field name flds) as [f|]; [|rewrite Hlook; reflexivity].
    destruct Hlook as (m' & Hin & Hf & Hname & Hget). rewrite Hget.
    rewrite List.Forall_forall in Hkids, Hwfs.
    specialize (Hkids _ Hin). specialize (Hwfs _ Hf).
    assert (Hsub : incl (entries (shape_field p f m'))
                        (entries (PNode p (S n + list_sum (map psize ts)) n
                                        (Dataclass c flds) ts))).
    { cbn [entries]. intros x Hx. apply in_or_app. left.
      apply in_flat_map. exists (shape_field p f m'). split; assumption. }
    unfold shape_field in *. rewrite Hname in *.
    destruct (f_type f) as [ty|dc'].
    + cbn [built pref] in *. destruct rest as [|x rest].
      * exists m'. conjs; auto. apply Hsub. left. reflexivity.
      * cbn [resolve]. rewrite Hkids.
        pose proof (leaf_obj_plain (p +:+ "__" +:+ name) f) as Hp.
        destruct (leaf_obj (p +:+ "__" +:+ name) f); try reflexivity.
        contradiction.
    + specialize (IH dc' (p +:+ "__" +:+ name) m' Hwfs Hkids).
      destruct (schema_at dc' (p +:+ "__" +:+ name) rest) as [[sid g|dc'' prefix'']|].
      * destruct IH as (a & Hres & Ha & Hina). exists a. conjs; auto.
      * destruct IH as (n' & Hres & Hb' & Hwf' & Hincl). exists n'. conjs; auto.
        intros x Hx. apply Hsub. apply Hincl. exact Hx.
      * exact IH.
Qed.
End BuiltPaths.

(** ** The two front ends *)

Lemma preserved_refl s : preserved s s.
Proof. intros k v H. exact H. Qed.

Lemma preserved_trans a b c : preserved a b -> preserved b c -> preserved a c.
Proof. intros H1 H2 k v H. apply H2, H1, H. Qed.

Lemma setdefault_map_preserved k x s : preserved s (setdefault_map k x s).
Proof.
  unfold setdefault_map. intros k' v H.
  destruct (s !! k) eqn:E; [exact H |].
  destruct (decide (k = k')) as [->|Hne].
  - congruence.
  - rewrite lookup_insert_ne by exact Hne. exact H.
Qed.

Lemma proxy_hstate_preserved enc sid f s : preserved s (proxy_hstate enc sid f s).
Proof.
  unfold proxy_hstate. destruct (default_value f) as [v|]; [|apply preserved_refl].
  destruct (encode enc v); [apply setdefault_map_preserved | apply preserved_refl].
Qed.

Lemma ProxyField_init_ok enc sid f w r w' :
  ProxyField_init sid (f_name f) (f_type f) (f_default f) (f_default_factory f) enc w
  = Ok r w' ->
  r = length (heap w) /\ heap w' = heap w ++ [proxy_leaf enc sid f]
  /\ state w' = proxy_hstate enc sid f (state w).
Proof.
  unfold ProxyField_init, proxy_hstate, default_value, proxy_leaf, bind, alloc.
  destruct f as [name ty [d|] [d'|]]; cbn [f_default f_default_factory f_name f_type].
  4:{ unfold ret. intros H. injection H as <- <-. auto. }
  3:{ rename d' into d. unfold lift; destruct (encode enc d) as [x|e]; cbn; [|discriminate].
      unfold state_setdefault, setdefault_map, ret; cbn.
      destruct (state w !! sid); intros H; injection H as <- <-; auto. }
  all: unfold lift; destruct (encode enc d) as [x|e]; cbn; [|discriminate].
  all: unfold state_setdefault, setdefault_map, ret; cbn.
  all: destruct (state w !! sid); intros H; injection H as <- <-; auto.
Qed.

Lemma ProxyField_init_raise enc sid f w e w' :
  ProxyField_init sid (f_name f) (f_type f) (f_default f) (f_default_factory f) enc w
  = Raise e w' ->
  state w' = state w /\ exists v, encode enc v = Raised e.
Proof.
  unfold ProxyField_init, bind, alloc.
  destruct f as [name ty [d|] [d'|]]; cbn [f_default f_default_factory f_name f_type].
  4:{ discriminate. }
  3:{ rename d' into d. unfold lift; destruct (encode enc d) as [x|e'] eqn:E; cbn.
      - unfold state_setdefault, ret; cbn; destruct (state w !! sid); discriminate.
      - intros H; injection H as <- <-; split; [reflexivity | eauto]. }
  all: unfold lift; destruct (encode enc d) as [x|e'] eqn:E; cbn.
  all: try (unfold state_setdefault, ret; cbn; destruct (state w !! sid); discriminate).
  all: intros H; injection H as <- <-; split; [reflexivity | eauto].
Qed.

(** [state_names_proxy] returns, and leaves the tree in the heap. *)
Lemma state_names_proxy_spec dc ns w :
  let t := shape dc ns (length (heap w)) in
  exists w',
    state_names_proxy dc ns w = Ok (pref t) w'
    /\ length (heap w') = length (heap w) + psize t
    /\ built name_leaf "__ProxyName" (heap w') t
    /\ (forall i, i < length (heap w) -> heap w' !! i = heap w !! i)
    /\ state w' = state w.
Proof.
  intros t. unfold state_names_proxy.
  set (handler := fun (state_id : string) (_ : Field) => NameField_init state_id).
  pose proof (build_spec handler name_leaf "__ProxyName" (fun _ _ s => s) eq) as H.
  specialize (H (fun s => eq_refl)).
  specialize (H (fun a b c Hab Hbc => eq_trans Hab Hbc)).
  specialize (H (fun _ _ s => eq_refl)).
  assert (Hok : forall sid f w r w',
             handler sid f w = Ok r w' ->
             r = length (heap w) /\ heap w' = heap w ++ [name_leaf sid f]
             /\ state w' = state w).
  { intros sid f w0 r w' [= <- <-]. auto. }
  assert (Hraise : forall sid f w e w',
             handler sid f w = Raise e w' -> state w = state w').
  { intros sid f w0 e w' Hh. discriminate. }
  specialize (H Hok Hraise (fun _ _ => I) dc ns None w I). fold t in H.
  destruct (_build_proxy_cls dc ns handler "__ProxyName" None w) as [r w'|e w'].
  - destruct H as (-> & Hlen & Hb & Hframe & _ & Hst).
    exists w'. conjs; auto.
    rewrite Hst. clear. generalize (state w).
    induction (leaves t); intros s; simpl; auto.
  - destruct H as (_ & sid & f & w1 & Hh). discriminate.
Qed.

(** [state_proxy] leaves the tree in the heap and has set the defaults
    that were absent; when an encoder raises, no key has lost its value. *)
Lemma state_proxy_spec dc ns oenc w :
  let enc := encoder_or_default oenc in
  let t := shape dc ns (length (heap w)) in
  match state_proxy dc ns oenc w with
  | Ok r w' =>
      r = pref t
      /\ length (heap w') = length (heap w) + psize t
      /\ built (proxy_leaf enc) "__Proxy" (heap w') t
      /\ (forall i, i < length (heap w) -> heap w' !! i = heap w !! i)
      /\ state w' = run_leaves (proxy_hstate enc) (leaves t) (state w)
  | Raise e w' =>
      preserved (state w) (state w') /\ exists v, encode enc v = Raised e
  end.
Proof.
  intros enc t. unfold state_proxy. fold enc.
  set (handler := fun (state_id : string) (field : Field) =>
                    ProxyField_init state_id (f_name field) (f_type field)
                                    (f_default field) (f_default_factory field) enc).
  pose proof (build_spec handler (proxy_leaf enc) "__Proxy" (proxy_hstate enc)
                         preserved preserved_refl preserved_trans
                         (proxy_hstate_preserved enc)) as H.
  assert (Hok : forall sid f w r w',
             handler sid f w = Ok r w' ->
             r = length (heap w) /\ heap w' = heap w ++ [proxy_leaf enc sid f]
             /\ state w' = proxy_hstate enc sid f (state w)).
  { intros sid f w0 r w' Hh. apply ProxyField_init_ok. exact Hh. }
  assert (Hraise : forall sid f w e w',
             handler sid f w = Raise e w' -> preserved (state w) (state w')).
  { intros sid f w0 e w' Hh. apply ProxyField_init_raise in Hh.
    destruct Hh as [-> _]. apply preserved_refl. }
  specialize (H Hok Hraise (fun _ _ => I) dc ns None w I). fold t in H.
  destruct (_build_proxy_cls dc ns handler "__Proxy" None w) as [r w'|e w'].
  - destruct H as (-> & Hlen & Hb & Hframe & _ & Hst).
    conjs; auto.
  - destruct H as (HR & sid & f & w1 & Hh). split; [exact HR |].
    apply ProxyField_init_raise in Hh. destruct Hh as [_ Hv]. exact Hv.
Qed.

(** ** The example schemas are well formed *)

Ltac solve_wf :=
  cbn; repeat match goal with
              | |- _ /\ _ => split
              | |- True => exact I
              | |- NoDup _ => apply (bool_decide_unpack _); vm_compute; exact I
              end.

Lemma MyData_wf : wf_dataclass MyData.
Proof. solve_wf. Qed.

Lemma MyBiggerData_wf : wf_dataclass MyBiggerData.
Proof. solve_wf. Qed.

Lemma Outer_wf : wf_dataclass Outer.
Proof. solve_wf. Qed.

(** ** Derived keys *)

Lemma string_app_assoc (a b c : string) : (a +:+ b) +:+ c = a +:+ (b +:+ c).
Proof.
  induction a as [|x a IH]; [reflexivity |].
  change (String x ((a +:+ b) +:+ c) = String x (a +:+ b +:+ c)).
  rewrite IH. reflexivity.
Qed.

Lemma node_prefix_nonempty prefix c :
  prefix <> "" -> node_prefix prefix c = prefix +:+ "__" +:+ c.
Proof. intros H. destruct prefix; [contradiction | reflexivity]. Qed.

Lemma state_id_nonempty p name : p +:+ "__" +:+ name <> "".
Proof. destruct p; discriminate. Qed.

(** The key the build derives is the key of the formula, up to a fixed
    string [pre] in front that the root decides. *)
Lemma derived_key_at_schema_at pre path :
  forall dc prefix prefix' k,
    (pre +:+ node_prefix prefix (dc_name dc) = prefix' +:+ "__" +:+ dc_name dc) ->
    derived_key_at dc prefix' path = Some k ->
    exists sid f, schema_at dc prefix path = Some (AtLeaf sid f) /\ pre +:+ sid = k.
Proof.
  induction path as [|name rest IH]; intros dc prefix prefix' k Hpre Hk.
  - discriminate.
  - cbn [derived_key_at schema_at] in *.
    destruct (find_field name (dc_fields dc)) as [f|]; [|discriminate].
    assert (Hkey : derived_key prefix' (dc_name dc) name
                   = pre +:+ (node_prefix prefix (dc_name dc) +:+ "__" +:+ name)).
    { unfold derived_key. rewrite <- (string_app_assoc pre). rewrite Hpre.
      rewrite !string_app_assoc. reflexivity. }
    destruct (f_type f) as [ty|dc'].
    + destruct rest; [|discriminate]. injection Hk as <-.
      eexists _, _. split; [reflexivity |]. symmetry. exact Hkey.
    + apply (IH dc' (node_prefix prefix (dc_name dc) +:+ "__" +:+ name)
                  (derived_key prefix' (dc_name dc) name) k); [|exact Hk].
      rewrite Hkey, node_prefix_nonempty by apply state_id_nonempty.
      rewrite !string_app_assoc. reflexivity.
Qed.

(** C1 (amended). The state id of the descriptor that [state_proxy] makes
    for a leaf field follows the formula
    prefix + "__" + TypeName + "__" + fieldName, applied recursively with
    the derived key of a nested record field as the prefix of its children,
    when the namespace prefix is not empty. When the namespace prefix is
    empty, the state id is the result of the formula without its leading
    "__": TypeName + "__" + fieldName at the root, and so on below. *)
Theorem leaf_state_id_formula dc ns oenc w r w' path k :
  wf_dataclass dc ->
  state_proxy dc ns oenc w = Ok r w' ->
  derived_key_at dc ns path = Some k ->
  exists a name ty d enc sid,
    resolve (heap w') r path = Some a
    /\ heap w' !! a = Some (ProxyField sid name ty d enc)
    /\ match ns with
       | "" => "__" +:+ sid = k
       | _ => sid = k
       end.
Proof.
  intros Hwf Hrun Hk.
  pose proof (state_proxy_spec dc ns oenc w) as Hspec. cbv zeta in Hspec.
  rewrite Hrun in Hspec. destruct Hspec as (-> & _ & Hb & _ & _).
  set (pre := match ns with "" => "__" | _ => "" end).
  assert (Hpre : pre +:+ node_prefix ns (dc_name dc) = ns +:+ "__" +:+ dc_name dc).
  { unfold pre. destruct ns; reflexivity. }
  destruct (derived_key_at_schema_at pre path dc ns ns k Hpre Hk)
    as (sid & f & Hat & Hsid).
  pose proof (built_at (proxy_leaf (encoder_or_default oenc)) "__Proxy"
                       (fun _ _ => I) (heap w') path dc ns (length (heap w)) Hwf Hb)
    as Hres.
  rewrite Hat in Hres. destruct Hres as (a & Hres & Ha & _).
  exists a, (f_name f), (f_type f), (f_default f), (encoder_or_default oenc), sid.
  conjs; auto. unfold pre in Hsid. destruct ns; exact Hsid.
Qed.

Lemma leaf_state_id_formula_witness :
  exists r w' a name ty d enc sid,
    state_proxy MyBiggerData "ns1" None empty_world = Ok r w'
    /\ resolve (heap w') r ["my_other_data"; "a"] = Some a
    /\ heap w' !! a = Some (ProxyField sid name ty d enc)
    /\ sid = "ns1__MyBiggerData__my_other_data__MyData__a".
Proof.
  destruct (state_proxy MyBiggerData "ns1" None empty_world) as [r w'|e w'] eqn:Hrun;
    [|absurd_raise Hrun].
  destruct (leaf_state_id_formula MyBiggerData "ns1" None empty_world r w'
              ["my_other_data"; "a"] "ns1__MyBiggerData__my_other_data__MyData__a"
              MyBiggerData_wf Hrun eq_refl)
    as (a & name & ty & d & enc & sid & Hres & Ha & Hsid).
  exists r, w', a, name, ty, d, enc, sid. auto.
Defined.

(** C1 as stated fails at the empty namespace: the state id has no leading
    "__". *)
Lemma derived_key_claim_counterexample : ~ derived_key_claim MyData "" ["a"].
Proof.
  intros H.
  destruct (state_proxy MyData "" (Some IntEncoderDecoder) empty_world) as [r w'|e w'] eqn:Hrun;
    [|vm_compute in Hrun; discriminate].
  destruct (H (Some IntEncoderDecoder) empty_world r w' "__MyData__a" Hrun eq_refl)
    as (a & name & ty & d & enc & Hres & Ha).
  vm_compute in Hrun. injection Hrun as <- <-.
  vm_compute in Hres. injection Hres as <-.
  vm_compute in Ha. discriminate.
Qed.

(** ** The value-proxy and the name-proxy mirror each other *)

Lemma built_root leaf_obj sfx h dc prefix n :
  built leaf_obj sfx h (shape dc prefix n) ->
  exists ns,
    h !! pref (shape dc prefix n)
    = Some (ProxyInstance (dc_name dc +:+ sfx) ns dc n
                          (node_prefix prefix (dc_name dc)))
    /\ h !! n = Some (PyDict (field_items (shape dc prefix n))).
Proof.
  destruct dc as [c flds]. rewrite shape_unfold. cbv zeta. cbn [built pref].
  intros (Hr & Hfd & _). eexists. split; [exact Hr | exact Hfd].
Qed.

(** Both proxies of [state_proxies] are in the final heap. *)
Lemma state_proxies_spec dc ns oenc w data name w' :
  state_proxies dc ns oenc w = Ok (data, name) w' ->
  exists n1 n2,
    data = pref (shape dc ns n1) /\ name = pref (shape dc ns n2)
    /\ built (proxy_leaf (encoder_or_default oenc)) "__Proxy" (heap w') (shape dc ns n1)
    /\ built name_leaf "__ProxyName" (heap w') (shape dc ns n2).
Proof.
  unfold state_proxies, bind. intros Hrun.
  pose proof (state_proxy_spec dc ns oenc w) as Hd. cbv zeta in Hd.
  destruct (state_proxy dc ns oenc w) as [d w1|e w1]; [|discriminate].
  destruct Hd as (-> & Hlen1 & Hb1 & _ & _).
  destruct (state_names_proxy_spec dc ns w1) as (w2 & Hn & Hlen2 & Hb2 & Hframe & _).
  rewrite Hn in Hrun. unfold ret in Hrun. injection Hrun as <- <- <-.
  exists (length (heap w)), (length (heap w1)). conjs; auto.
  eapply built_stable; [|exact Hb1].
  intros i Hi. apply Hframe.
  pose proof (shape_range dc ns (length (heap w))) as Hrg.
  rewrite List.Forall_forall in Hrg. specialize (Hrg i Hi). lia.
Qed.



(** ** The flat field index *)

Lemma field_index_built leaf_obj sfx w dc prefix n :
  built leaf_obj sfx (heap w) (shape dc prefix n) ->
  field_index (pref (shape dc prefix n)) w
  = Ok (field_items (shape dc prefix n)) w.
Proof.
  intros Hb. destruct (built_root _ _ _ _ _ _ Hb) as (ns & Hr & Hd).
  unfold field_index, get_field_proxy_dict, _get_proxy_dataclass_type_or_raise,
    _get_proxy_dataclass_type, dict_items, bind, ret.
  rewrite Hr. cbn. rewrite Hr. rewrite Hd. reflexivity.
Qed.

Lemma field_items_schema_keys dc prefix n :
  dict_keys (field_items (shape dc prefix n))
  = first_occurrences (schema_keys dc prefix).
Proof. rewrite field_items_keys, entries_keys. reflexivity. Qed.

Lemma first_occurrences_length l : length (first_occurrences l) <= length l.
Proof. unfold first_occurrences. pose proof (add_keys_length l []). simpl in *. lia. Qed.

(** C5 (amended). The flat field index of the root value-proxy and of the
    root name-proxy holds every distinct key of the schema once, in the
    order of the build, and nothing else: at most [L + S] entries. When the
    derived keys of the leaves and the synthetic keys of the sub-records
    are pairwise distinct, it holds exactly [L + S] entries, one per leaf
    field under its derived key and one per sub-record node (the root
    included) under its synthetic key. *)
Theorem index_size dc ns oenc w data name w' :
  state_proxies dc ns oenc w = Ok (data, name) w' ->
  exists items_d items_n,
    field_index data w' = Ok items_d w'
    /\ field_index name w' = Ok items_n w'
    /\ dict_keys items_d = first_occurrences (schema_keys dc ns)
    /\ dict_keys items_n = first_occurrences (schema_keys dc ns)
    /\ length items_d <= count_leaves dc + count_records dc
    /\ length items_n <= count_leaves dc + count_records dc
    /\ (NoDup (schema_keys dc ns) ->
        dict_keys items_d = schema_keys dc ns
        /\ dict_keys items_n = schema_keys dc ns
        /\ length items_d = count_leaves dc + count_records dc
        /\ length items_n = count_leaves dc + count_records dc).
Proof.
  intros Hrun.
  destruct (state_proxies_spec dc ns oenc w data name w' Hrun)
    as (n1 & n2 & -> & -> & Hb1 & Hb2).
  exists (field_items (shape dc ns n1)), (field_items (shape dc ns n2)).
  assert (Hlen : forall n, length (field_items (shape dc ns n))
                           = length (first_occurrences (schema_keys dc ns))).
  { intros n. rewrite <- field_items_schema_keys with (n := n).
    unfold dict_keys. rewrite length_map. reflexivity. }
  pose proof (first_occurrences_length (schema_keys dc ns)) as Hle.
  rewrite schema_keys_length in Hle.
  conjs.
  - eapply field_index_built. exact Hb1.
  - eapply field_index_built. exact Hb2.
  - apply field_items_schema_keys.
  - apply field_items_schema_keys.
  - rewrite Hlen. exact Hle.
  - rewrite Hlen. exact Hle.
  - intros Hnd. rewrite !field_items_schema_keys, !Hlen.
    rewrite (first_occurrences_nodup _ Hnd), schema_keys_length. auto.
Qed.

Lemma index_size_witness :
  exists data name w' items_d items_n,
    state_proxies MyBiggerData "" None empty_world = Ok (data, name) w'
    /\ field_index data w' = Ok items_d w'
    /\ field_index name w' = Ok items_n w'
    /\ length items_d = 5 /\ length items_n = 5.
Proof.
  destruct (state_proxies MyBiggerData "" None empty_world) as [[data name] w'|e w'] eqn:Hrun;
    [|absurd_raise Hrun].
  destruct (index_size MyBiggerData "" None empty_world data name w' Hrun)
    as (items_d & items_n & Hd & Hn & _ & _ & _ & _ & Hnd).
  destruct Hnd as (_ & _ & Hld & Hln).
  { apply (bool_decide_unpack _). vm_compute. exact I. }
  exists data, name, w', items_d, items_n. conjs; auto.
Defined.

(** C5 as stated fails when a field name contains the separator: in
    [Outer] the key of the leaf [x__Inner] is the synthetic key of the
    sub-record [x], and the index has three entries for two leaves and two
    records. *)
Lemma index_size_claim_counterexample : ~ index_size_claim Outer "".
Proof.
  intros H.
  destruct (state_proxy Outer "" (Some IntEncoderDecoder) empty_world) as [r w'|e w'] eqn:Hrun;
    [|vm_compute in Hrun; discriminate].
  destruct (field_index r w') as [items w''|e w''] eqn:Hidx.
  - specialize (H (Some IntEncoderDecoder) empty_world r w' items w'' Hrun Hidx).
    vm_compute in Hrun. injection Hrun as <- <-.
    vm_compute in Hidx. injection Hidx as <- <-.
    vm_compute in H. discriminate.
  - vm_compute in Hrun. injection Hrun as <- <-.
    vm_compute in Hidx. discriminate.
Qed.

(** ** Nested indices *)

Lemma dict_set_In {V : Type} (d : list (string * V)) k v x :
  In x (dict_set d k v) -> In x d \/ x = (k, v).
Proof.
  induction d as [|[k' v'] d IH]; simpl.
  - intros [<-|[]]. right. reflexivity.
  - destruct (String.eqb_spec k' k) as [->|Hne]; simpl.
    + intros [<-|H]; auto.
    + intros [<-|H]; auto. destruct (IH H); auto.
Qed.

Lemma dict_update_In {V : Type} (l d : list (string * V)) x :
  In x (dict_update d l) -> In x d \/ In x l.
Proof.
  unfold dict_update. revert d. induction l as [|[k v] l IH]; intros d; simpl; auto.
  intros H. destruct (IH _ H) as [H1|H1]; auto.
  destruct (dict_set_In _ _ _ _ H1) as [H2|H2]; auto.
Qed.

(** A field dict holds entries of its tree only. *)
Lemma inner_items_In t x :
  In x (inner_items t) -> In x (flat_map entries (pkids t)).
Proof.
  induction t as [k r f|k r fd dc kids IH] using ptree_ind'; [intros []|].
  cbn [inner_items pkids].
  assert (H : forall acc,
             In x (fold_left
                     (fun acc kid =>
                        dict_set (dict_update acc (inner_items kid)) (pkey kid) (pref kid))
                     kids acc) ->
             In x acc \/ In x (flat_map entries kids)).
  { induction IH as [|kid kids Hkid _ IHkids]; intros acc; simpl; auto.
    intros Hx. destruct (IHkids _ Hx) as [H1|H1].
    - destruct (dict_set_In _ _ _ _ H1) as [H2|H2].
      + destruct (dict_update_In _ _ _ H2) as [H3|H3]; auto.
        right. apply in_or_app. left. rewrite entries_split.
        apply in_or_app. left. apply Hkid. exact H3.
      + right. apply in_or_app. left. rewrite entries_split.
        apply in_or_app. right. left. symmetry. exact H2.
    - right. apply in_or_app. right. exact H1. }
  intros Hx. destruct (H [] Hx) as [[]|H1]. exact H1.
Qed.

Lemma field_items_In t x : In x (field_items t) -> In x (entries t).
Proof.
  unfold field_items. intros H. rewrite entries_split.
  destruct (dict_set_In _ _ _ _ H) as [H1|H1].
  - apply in_or_app. left. apply inner_items_In. exact H1.
  - apply in_or_app. right. left. symmetry. exact H1.
Qed.

Lemma add_keys_In l ks k : In k (fold_left add_key l ks) <-> In k ks \/ In k l.
Proof.
  revert ks. induction l as [|x l IH]; intros ks; simpl.
  - tauto.
  - rewrite IH. unfold add_key.
    destruct (existsb (String.eqb x) ks) eqn:E.
    + apply existsb_eqb_In in E. split; [tauto |].
      intros [H|[<-|H]]; auto.
    + rewrite in_app_iff. simpl. tauto.
Qed.

Lemma first_occurrences_In l k : In k (first_occurrences l) <-> In k l.
Proof. unfold first_occurrences. rewrite add_keys_In. simpl. tauto. Qed.

(** C10 (amended). For a tree built by [_build_proxy_cls] through
    [state_proxy], every key of the field dict of a nested sub-record proxy
    is a key of the field dict of the root. When the keys of the schema are
    pairwise distinct, the root maps each of these keys to the same object
    as the sub-record does, and the root resolves the key of every leaf and
    of every sub-record, at any depth, to the object at that place. *)
Theorem index_contained dc ns oenc w r w' path dc' prefix' :
  wf_dataclass dc ->
  state_proxy dc ns oenc w = Ok r w' ->
  schema_at dc ns path = Some (AtNode dc' prefix') ->
  exists sub items_sub items_root,
    resolve (heap w') r path = Some sub
    /\ field_index sub w' = Ok items_sub w'
    /\ field_index r w' = Ok items_root w'
    /\ (forall k, In k (dict_keys items_sub) -> In k (dict_keys items_root))
    /\ (NoDup (schema_keys dc ns) ->
        (forall k a, dict_get items_sub k = Some a ->
                     dict_get items_root k = Some a)
        /\ (forall q x, schema_at dc ns q = Some x ->
                        dict_get items_root (at_key x) = resolve (heap w') r q)).
Proof.
  intros Hwf Hrun Hat.
  pose proof (state_proxy_spec dc ns oenc w) as Hspec. cbv zeta in Hspec.
  rewrite Hrun in Hspec. destruct Hspec as (-> & _ & Hb & _ & _).
  set (enc := encoder_or_default oenc) in *.
  set (n := length (heap w)) in *.
  pose proof (built_at (proxy_leaf enc) "__Proxy" (fun _ _ => I) (heap w'))
    as Hpaths.
  pose proof (Hpaths path dc ns n Hwf Hb) as Hsub. rewrite Hat in Hsub.
  destruct Hsub as (n' & Hres & Hb' & Hwf' & Hincl).
  exists (pref (shape dc' prefix' n')), (field_items (shape dc' prefix' n')),
    (field_items (shape dc ns n)).
  conjs.
  - exact Hres.
  - eapply field_index_built. exact Hb'.
  - eapply field_index_built. exact Hb.
  - intros k. rewrite !field_items_keys, !first_occurrences_In.
    unfold dict_keys. rewrite !in_map_iff.
    intros (x & Hx & Hin). exists x. split; [exact Hx | apply Hincl; exact Hin].
  - intros Hnd.
    assert (Hnd' : NoDup (dict_keys (entries (shape dc ns n)))).
    { rewrite entries_keys. exact Hnd. }
    rewrite (field_items_nodup _ Hnd'). split.
    + intros k a Hget. apply dict_get_In; [exact Hnd' |].
      apply Hincl. apply field_items_In. apply dict_get_Some_In. exact Hget.
    + intros q x Hq. specialize (Hpaths q dc ns n Hwf Hb). rewrite Hq in Hpaths.
      destruct x as [sid f|dc'' prefix'']; cbn [at_key].
      * destruct Hpaths as (a & -> & _ & Hin). apply dict_get_In; assumption.
      * destruct Hpaths as (m & -> & _ & _ & Hincl'').
        apply dict_get_In; [exact Hnd' |]. apply Hincl''.
        rewrite entries_split. apply in_or_app. right. left.
        destruct dc'' as [c'' flds'']. reflexivity.
Qed.

Lemma index_contained_witness :
  exists r w' sub items_sub items_root,
    state_proxy MyBiggerData "" None empty_world = Ok r w'
    /\ resolve (heap w') r ["my_other_data"] = Some sub
    /\ field_index sub w' = Ok items_sub w'
    /\ field_index r w' = Ok items_root w'
    /\ (forall k a, dict_get items_sub k = Some a ->
                    dict_get items_root k = Some a).
Proof.
  destruct (state_proxy MyBiggerData "" None empty_world) as [r w'|e w'] eqn:Hrun;
    [|absurd_raise Hrun].
  destruct (index_contained MyBiggerData "" None empty_world r w' ["my_other_data"]
              MyData "MyBiggerData__my_other_data" MyBiggerData_wf Hrun eq_refl)
    as (sub & items_sub & items_root & Hres & Hs & Hr & _ & Hnd).
  destruct Hnd as (Hsame & _).
  { apply (bool_decide_unpack _). vm_compute. exact I. }
  exists r, w', sub, items_sub, items_root. conjs; auto.
Defined.

(** C10 as stated fails when a field name contains the separator: in
    [Outer] the sub-record [x] maps its own key to itself, and the root
    maps that key to the descriptor of the leaf [x__Inner]. *)
Lemma index_contained_claim_counterexample :
  ~ index_contained_claim Outer "" ["x"].
Proof.
  intros H.
  destruct (state_proxy Outer "" (Some IntEncoderDecoder) empty_world) as [r w'|e w'] eqn:Hrun;
    [|vm_compute in Hrun; discriminate].
  specialize (H (Some IntEncoderDecoder) empty_world r w').
  vm_compute in Hrun. injection Hrun as <- <-.
  specialize (H 3 [("Outer__x__Inner__y", 2); ("Outer__x__Inner", 3)]
                [("Outer__x__Inner__y", 2); ("Outer__x__Inner", 4); ("Outer", 5)]
                "Outer__x__Inner" 3 eq_refl eq_refl eq_refl eq_refl eq_refl).
  vm_compute in H. discriminate.
Qed.

(** ** Reactive keys *)

(** The keys a sub-record token expands to. *)
Lemma reactive_keys_record leaf_obj sfx w dc prefix n rest :
  built leaf_obj sfx (heap w) (shape dc prefix n) ->
  get_reactive_state_id_keys (ORef (pref (shape dc prefix n)) :: rest) w
  = (rest' <- get_reactive_state_id_keys rest ;;
     ret (map str_obj (first_occurrences (schema_keys dc prefix)) ++ rest'))%py w.
Proof.
  intros Hb. destruct (built_root _ _ _ _ _ _ Hb) as (ns & Hr & Hd).
  cbn [get_reactive_state_id_keys].
  unfold is_proxy_class, get_field_proxy_dict, _get_proxy_dataclass_type_or_raise,
    _get_proxy_dataclass_type, dict_items, bind, ret.
  repeat (rewrite Hr; cbn).
  rewrite Hd. rewrite field_items_schema_keys. reflexivity.
Qed.

(** C6 (amended). For every sequence of binding tokens taken from a
    name-proxy, [get_reactive_state_id_keys] returns the concatenation, in
    input order, of: for a leaf (string) token, that string; for a
    sub-record token, the keys of its field dict, which are the distinct
    keys of its schema in the order of the build: for each field in order
    the derived key of a leaf, or all keys of a nested sub-record followed
    by the synthetic key of that nested sub-record, and last the synthetic
    key of the token's own sub-record. *)
Theorem reactive_keys dc ns w name w' toks keys :
  wf_dataclass dc ->
  state_names_proxy dc ns w = Ok name w' ->
  Forall (token_ok dc ns) toks ->
  Forall2 (fun t o => token_obj (heap w') name t = Some o) toks keys ->
  get_reactive_state_id_keys keys w'
  = Ok (map str_obj (flat_map (reactive_of dc ns) toks)) w'.
Proof.
  intros Hwf Hrun Hok Htoks.
  destruct (state_names_proxy_spec dc ns w) as (w1 & Hrun' & _ & Hb & _ & _).
  rewrite Hrun in Hrun'. injection Hrun' as -> <-.
  pose proof (built_at name_leaf "__ProxyName" (fun _ _ => I) (heap w')) as Hpaths.
  induction Htoks as [|t o toks keys Ht _ IH]; [reflexivity |].
  inversion Hok as [|? ? Hokt Hokts]; subst. specialize (IH Hokts).
  destruct t as [s|path]; cbn [token_obj] in Ht.
  - injection Ht as <-. cbn [get_reactive_state_id_keys flat_map reactive_of].
    unfold is_proxy_class, _get_proxy_dataclass_type, bind, ret. cbn.
    fold (get_reactive_state_id_keys keys). rewrite IH. reflexivity.
  - cbn [token_ok] in Hokt. cbn [flat_map reactive_of].
    specialize (Hpaths path dc ns (length (heap w)) Hwf Hb).
    destruct (schema_at dc ns path) as [[sid f|dc' prefix']|]; try contradiction.
    destruct Hpaths as (n' & Hres & Hb' & _ & _).
    rewrite Hres in Ht. injection Ht as <-.
    rewrite (reactive_keys_record _ _ _ _ _ _ _ Hb').
    unfold bind, ret. rewrite IH. rewrite map_app. reflexivity.
Qed.

Lemma reactive_keys_witness :
  exists name w' keys,
    state_names_proxy MyBiggerData "" empty_world = Ok name w'
    /\ Forall2 (fun t o => token_obj (heap w') name t = Some o)
               [RecordToken ["my_other_data"]; LeafToken "MyBiggerData__c"] keys
    /\ get_reactive_state_id_keys keys w'
       = Ok (map str_obj ["MyBiggerData__my_other_data__MyData__a";
                          "MyBiggerData__my_other_data__MyData__b";
                          "MyBiggerData__my_other_data__MyData";
                          "MyBiggerData__c"]) w'.
Proof.
  destruct (state_names_proxy MyBiggerData "" empty_world) as [name w'|e w'] eqn:Hrun;
    [|vm_compute in Hrun; discriminate].
  assert (Hkeys : Forall2 (fun t o => token_obj (heap w') name t = Some o)
                          [RecordToken ["my_other_data"]; LeafToken "MyBiggerData__c"]
                          [ORef 4; str_obj "MyBiggerData__c"]).
  { vm_compute in Hrun. injection Hrun as <- <-.
    constructor; [reflexivity |]. constructor; [reflexivity | constructor]. }
  exists name, w', [ORef 4; str_obj "MyBiggerData__c"].
  split; [reflexivity |]. split; [exact Hkeys |].
  apply (reactive_keys MyBiggerData "" empty_world name w'
           [RecordToken ["my_other_data"]; LeafToken "MyBiggerData__c"]
           [ORef 4; str_obj "MyBiggerData__c"] MyBiggerData_wf Hrun).
  - constructor; [exact I |]. constructor; [exact I | constructor].
  - exact Hkeys.
Defined.

(** C6 as stated fails for a token with a nested sub-record: binding the
    root of [MyBiggerData] also reacts to the synthetic key of
    [my_other_data]. *)
Lemma reactive_keys_claim_counterexample :
  ~ reactive_keys_claim MyBiggerData "" [RecordToken []].
Proof.
  intros H.
  destruct (state_names_proxy MyBiggerData "" empty_world) as [name w'|e w'] eqn:Hrun;
    [|vm_compute in Hrun; discriminate].
  specialize (H empty_world name w' [ORef name] Hrun).
  vm_compute in Hrun. injection Hrun as <- <-.
  specialize (H ltac:(constructor; [reflexivity | constructor])).
  vm_compute in H. discriminate.
Qed.

(** ** Tokens of a name-proxy *)









(** ** Firing a binding *)





Section Firing.
Variable enc : IStateEncoderDecoder.
Variable w : world.
Variables (dc : dataclass) (ns : string) (n : nat).
Hypothesis Hwf : wf_dataclass dc.
Hypothesis Hb : built (proxy_leaf enc) "__Proxy" (heap w) (shape dc ns n).
Hypothesis Hnd : NoDup (schema_keys dc ns).





End Firing.





(** ** Defaults are set if absent *)

Lemma leaves_shape dc :
  forall prefix n, leaves (shape dc prefix n) = schema_leaves dc prefix.
Proof.
  induction dc as [c flds IH] using dataclass_ind'. intros prefix n.
  rewrite shape_unfold. cbv zeta. cbn [leaves schema_leaves].
  generalize (S n) as m. set (p := node_prefix prefix c).
  induction IH as [|f fs Hf _ IHfs]; intros m; simpl; [reflexivity |].
  rewrite IHfs. f_equal.
  unfold shape_field. destruct (f_type f) as [ty|dc']; [reflexivity |].
  apply Hf.
Qed.

(** C8. Building a value-proxy changes the state only by setting, for the
    leaf fields in order, the encoded default (or the encoded value of the
    default factory) if the key is absent; a key that is present keeps its
    value, also when an encoder raises, so a second construction for the
    same schema and namespace leaves a value stored at the key of a leaf
    unchanged. *)
Theorem defaults_set_if_absent dc ns oenc w :
  match state_proxy dc ns oenc w with
  | Ok _ w' =>
      state w' = set_defaults (encoder_or_default oenc) (schema_leaves dc ns) (state w)
  | Raise _ _ => True
  end
  /\ preserved (state w) (state (result_world (state_proxy dc ns oenc w))).
Proof.
  pose proof (state_proxy_spec dc ns oenc w) as H. cbv zeta in H.
  destruct (state_proxy dc ns oenc w) as [r w'|e w'].
  - destruct H as (_ & _ & _ & _ & Hst). rewrite leaves_shape in Hst.
    split; [exact Hst |]. cbn [result_world]. rewrite Hst.
    apply run_leaves_R.
    + apply preserved_refl.
    + apply preserved_trans.
    + apply proxy_hstate_preserved.
  - destruct H as [HR _]. split; [exact I | exact HR].
Qed.

(** A value written through the first proxy survives a second
    construction. *)
Lemma defaults_set_if_absent_witness :
  exists r1 w1 w2 r3 w3,
    state_proxy MyData "" None empty_world = Ok r1 w1
    /\ setattr_ r1 "a" (VInt 42) w1 = Ok tt w2
    /\ state_proxy MyData "" None w2 = Ok r3 w3
    /\ state w3 !! "MyData__a" = Some (VInt 42)
    /\ state w3 !! "MyData__b" = Some (VInt 2).
Proof.
  destruct (state_proxy MyData "" None empty_world) as [r1 w1|e w1] eqn:H1;
    [|absurd_raise H1].
  assert (Er : r1 = value_or 0 (state_proxy MyData "" None empty_world))
    by (rewrite H1; reflexivity).
  assert (Ew : w1 = result_world (state_proxy MyData "" None empty_world))
    by (rewrite H1; reflexivity).
  vm_compute in Er. subst r1 w1.
  destruct (setattr_ 3 "a" (VInt 42)
                     (result_world (state_proxy MyData "" None empty_world)))
    as [[] w2|e w2] eqn:H2; [|absurd_raise H2].
  assert (Ew : w2 = result_world
                      (setattr_ 3 "a" (VInt 42)
                         (result_world (state_proxy MyData "" None empty_world))))
    by (rewrite H2; reflexivity).
  subst w2.
  set (w2 := result_world
               (setattr_ 3 "a" (VInt 42)
                  (result_world (state_proxy MyData "" None empty_world)))) in *.
  destruct (defaults_set_if_absent MyData "" None w2) as [_ Hpres].
  destruct (state_proxy MyData "" None w2) as [r3 w3|e w3] eqn:H3;
    [|absurd_raise H3].
  eexists _, _, _, r3, w3. cbn [result_world] in Hpres.
  conjs; [exact H1 | exact H2 | exact H3 | apply Hpres | apply Hpres];
    vm_compute; reflexivity.
Defined.

(** ** Failed mutations *)




Lemma find_field_In flds f :
  NoDup (map f_name flds) -> In f flds -> find_field (f_name f) flds = Some f.
Proof.
  unfold find_field. induction flds as [|g fs IH]; intros Hnd Hin; [destruct Hin |].
  cbn [map] in Hnd. apply NoDup_cons in Hnd. destruct Hnd as [Hg Hnd].
  cbn [find]. destruct Hin as [->|Hin].
  - rewrite String.eqb_refl. reflexivity.
  - destruct (String.eqb_spec (f_name g) (f_name f)) as [Heq|Hne].
    + exfalso. apply Hg. rewrite Heq. apply list_elem_of_In.
      apply in_map. exact Hin.
    + apply IH; assumption.
Qed.







Section FromDataclass.
Variable enc : IStateEncoderDecoder.
Variable h : list obj.




End FromDataclass.






(** ** The composite codec when every unit declines *)

Lemma decode_loop_all_decline encoders obj obj_type :
  Forall (fun encoder => decode encoder obj obj_type = Raised TypeError)
         encoders ->
  decode_loop encoders obj obj_type = Return obj.
Proof.
  induction 1 as [|encoder rest Hd _ IH]; [reflexivity |].
  cbn [decode_loop]. rewrite Hd. exact IH.
Qed.

Lemma decode_loop_first encoders1 encoder encoders2 obj obj_type :
  Forall (fun encoder => decode encoder obj obj_type = Raised TypeError)
         encoders1 ->
  decode encoder obj obj_type <> Raised TypeError ->
  decode_loop (encoders1 ++ encoder :: encoders2) obj obj_type
  = decode encoder obj obj_type.
Proof.
  intros H Hne. induction H as [|e1 rest Hd _ IH].
  - cbn [app decode_loop].
    destruct (decode encoder obj obj_type) as [a|[]]; try reflexivity.
    contradiction.
  - cbn [app decode_loop]. rewrite Hd. exact IH.
Qed.

Lemma CollectionEncoderDecoder_decode_scalar encoders obj obj_type :
  is_collection obj = false ->
  decode (CollectionEncoderDecoder encoders) obj obj_type
  = decode_loop encoders obj obj_type.
Proof. destruct obj; intros H; try discriminate; reflexivity. Qed.

(** C3, amended. On a raw value that is neither a list nor a dict, the
    composite [decode] returns the raw value itself, unchanged and without
    raising, when every unit codec of its chain raises [TypeError]; the
    result of the first unit that does not raise [TypeError], a value or
    another exception, is the result of the composite. *)
Theorem composite_decode_falls_through encoders obj obj_type :
  is_collection obj = false ->
  (Forall (fun encoder => decode encoder obj obj_type = Raised TypeError)
          encoders ->
   decode (CollectionEncoderDecoder encoders) obj obj_type = Return obj)
  /\ (forall encoders1 encoder encoders2,
        encoders = encoders1 ++ encoder :: encoders2 ->
        Forall (fun encoder => decode encoder obj obj_type = Raised TypeError)
               encoders1 ->
        decode encoder obj obj_type <> Raised TypeError ->
        decode (CollectionEncoderDecoder encoders) obj obj_type
        = decode encoder obj obj_type).
Proof.
  intros Hc. rewrite (CollectionEncoderDecoder_decode_scalar _ _ _ Hc). split.
  - apply decode_loop_all_decline.
  - intros e1 e e2 -> H Hne. apply decode_loop_first; assumption.
Qed.

(** The default chain on the number 5 declared a [date]: the one unit
    raises [TypeError], and the composite returns 5. *)
Lemma composite_decode_falls_through_witness :
  decode default_encoder (VInt 5) TDate = Return (VInt 5).
Proof.
  apply (composite_decode_falls_through
           [DefaultEncoderDecoder utc_zone] (VInt 5) TDate eq_refl).
  constructor; [reflexivity | constructor].
Defined.

Lemma composite_decode_claim_counterexample :
  ~ composite_decode_claim [DefaultEncoderDecoder utc_zone] (VInt 5) TDate.
Proof.
  intros H. destruct H as [e He].
  - reflexivity.
  - constructor; [reflexivity | constructor].
  - vm_compute in He. discriminate.
Qed.



Lemma CollectionEncoderDecoder_decode_list encoders l t :
  CollectionEncoderDecoder_decode encoders (VList l) t
  = match get_args t with
    | value_type :: _ =>
        obind (list_comprehension
                 (fun v => CollectionEncoderDecoder_decode encoders v value_type) l)
              (fun xs => Return (VList xs))
    | [] => Raised IndexError
    end.
Proof. destruct t; reflexivity. Qed.

Lemma CollectionEncoderDecoder_decode_dict encoders items t :
  CollectionEncoderDecoder_decode encoders (VDict items) t
  = match get_args t with
    | [key_type; value_type] =>
        obind (dict_comprehension
                 (fun v => CollectionEncoderDecoder_decode encoders v key_type)
                 (fun v => CollectionEncoderDecoder_decode encoders v value_type)
                 items [])
              (fun d => Return (VDict d))
    | _ => Raised ValueError
    end.
Proof. destruct t; reflexivity. Qed.


(** ** Numbers as text *)

Section TextFacts.
Local Open Scope Z_scope.






End TextFacts.


(** ** ISO 8601 text of dates and times *)


Section IsoformatFacts.
Local Open Scope Z_scope.















End IsoformatFacts.


(** ** Calendar arithmetic *)

Section CalendarFacts.
Local Open Scope Z_scope.

















End CalendarFacts.


(** ** Ordinals and instants *)

Section InstantFacts.
Local Open Scope Z_scope.













End InstantFacts.


(** ** [UUID] and [Enum] *)

Section ScalarFacts.
Local Open Scope Z_scope.












End ScalarFacts.


(** ** [Decimal] as text *)

Section DecimalFacts.
Local Open Scope Z_scope.

Lemma append_cons c s t : String c s +:+ t = String c (s +:+ t).
Proof. reflexivity. Qed.


Lemma length_append s t :
  String.length (s +:+ t) = (String.length s + String.length t)%nat.
Proof.
  induction s as [|c s IH]; [reflexivity |].
  rewrite append_cons. cbn [String.length]. rewrite IH. reflexivity.
Qed.



















End DecimalFacts.


(** ** The round trip of a scalar *)

Section ScalarRoundTrip.
Local Open Scope Z_scope.
Variable local : datetime -> Z.








End ScalarRoundTrip.


(** ** Lists and dicts *)

Lemma CollectionEncoderDecoder_encode_scalar encoders obj :
  is_collection obj = false ->
  encode (CollectionEncoderDecoder encoders) obj = encode_loop encoders obj.
Proof. destruct obj; intros H; try discriminate; reflexivity. Qed.









Section Comprehensions.
Variables f g : pyval -> outcome pyval.
Variables fk gv : pyval -> pyval.



End Comprehensions.


(** ** The round trip through the default chain *)

Section RoundTrip.
Variable local : datetime -> Z.

Let codec : IStateEncoderDecoder :=
  CollectionEncoderDecoder [DefaultEncoderDecoder local].











End RoundTrip.


(** ** Properties of the codecs *)


Section DatetimeAdd.
Local Open Scope Z_scope.



End DatetimeAdd.



(** X3. When every unit codec raises [TypeError] on [encode] of a value
    that is neither a list nor a dict, the composite [encode] returns the
    value unchanged; the result of the first unit that does not raise
    [TypeError], a value or another exception, is the result of the
    composite. With no unit at all the composite is the identity on such
    values. *)
Theorem composite_encode_falls_through encoders obj :
  is_collection obj = false ->
  (Forall (fun encoder => encode encoder obj = Raised TypeError) encoders ->
   encode (CollectionEncoderDecoder encoders) obj = Return obj)
  /\ (forall encoders1 encoder encoders2,
        encoders = encoders1 ++ encoder :: encoders2 ->
        Forall (fun encoder => encode encoder obj = Raised TypeError) encoders1 ->
        encode encoder obj <> Raised TypeError ->
        encode (CollectionEncoderDecoder encoders) obj = encode encoder obj).
Proof.
  intros Hc. rewrite (CollectionEncoderDecoder_encode_scalar _ _ Hc). split.
  - induction 1 as [|encoder rest He _ IH]; [reflexivity |].
    cbn [encode_loop]. rewrite He. exact IH.
  - intros e1 e e2 -> H Hne. induction H as [|e0 rest He _ IH].
    + cbn [app encode_loop]. destruct (encode e obj) as [a|[]]; try reflexivity.
      contradiction.
    + cbn [app encode_loop]. rewrite He. exact IH.
Qed.

(** Two units for ints only, on a string. *)
Lemma composite_encode_falls_through_witness :
  encode (CollectionEncoderDecoder [IntEncoderDecoder; IntEncoderDecoder])
         (VStr "a") = Return (VStr "a").
Proof.
  apply (composite_encode_falls_through
           [IntEncoderDecoder; IntEncoderDecoder] (VStr "a") eq_refl).
  repeat constructor.
Defined.

(** X4. The composite [decode] of a list reads the item type off the
    declared type before it looks at any item: with a declared type that
    has no type argument (a bare [list], or [int]) it raises [IndexError],
    also for the empty list. Of a dict it unpacks two type arguments: with
    a declared type that has not exactly two it raises [ValueError], also
    for the empty dict. No unit codec is asked. *)
Theorem composite_decode_needs_type_arguments encoders obj_type :
  (get_args obj_type = [] ->
   forall l, decode (CollectionEncoderDecoder encoders) (VList l) obj_type
             = Raised IndexError)
  /\ (length (get_args obj_type) <> 2 ->
      forall items, decode (CollectionEncoderDecoder encoders) (VDict items) obj_type
                    = Raised ValueError).
Proof.
  split.
  - intros H l.
    change (decode (CollectionEncoderDecoder encoders) (VList l) obj_type)
      with (CollectionEncoderDecoder_decode encoders (VList l) obj_type).
    rewrite CollectionEncoderDecoder_decode_list, H. reflexivity.
  - intros H items.
    change (decode (CollectionEncoderDecoder encoders) (VDict items) obj_type)
      with (CollectionEncoderDecoder_decode encoders (VDict items) obj_type).
    rewrite CollectionEncoderDecoder_decode_dict.
    destruct (get_args obj_type) as [|a [|b [|c rest]]]; try reflexivity.
    cbn in H. contradiction.
Qed.

Lemma composite_decode_needs_type_arguments_witness :
  decode default_encoder (VList []) TList = Raised IndexError
  /\ decode default_encoder (VDict []) (TListOf TInt) = Raised ValueError.
Proof.
  destruct (composite_decode_needs_type_arguments
              [DefaultEncoderDecoder utc_zone] TList) as [H1 _].
  destruct (composite_decode_needs_type_arguments
              [DefaultEncoderDecoder utc_zone] (TListOf TInt)) as [_ H2].
  split; [apply H1; reflexivity | apply H2; cbn; lia].
Defined.

Lemma find_member_None members : forall i, find_member members VNone i = None.
Proof.
  induction members as [|[n v] members IH]; intros i; [reflexivity |].
  cbn [find_member]. destruct v; cbn; apply IH.
Qed.

(** X5. A store value that is not text, read as a [date], a [time] or a
    [datetime] through the default chain, is returned as it is: the one
    unit raises [TypeError], which the composite swallows. So is [None]
    read as an [int], a [UUID] or a [Decimal]. [None] read as a [str] is
    the text [None], read as a [bool] is [False], and read as an [Enum]
    raises [ValueError]. *)
Theorem default_chain_decode_unset (local : datetime -> Z) :
  (forall obj,
     is_collection obj = false ->
     match obj with VStr _ => False | _ => True end ->
     decode (CollectionEncoderDecoder [DefaultEncoderDecoder local]) obj TDatetime
     = Return obj
     /\ decode (CollectionEncoderDecoder [DefaultEncoderDecoder local]) obj TDate
        = Return obj
     /\ decode (CollectionEncoderDecoder [DefaultEncoderDecoder local]) obj TTime
        = Return obj)
  /\ decode (CollectionEncoderDecoder [DefaultEncoderDecoder local]) VNone TInt
     = Return VNone
  /\ decode (CollectionEncoderDecoder [DefaultEncoderDecoder local]) VNone TUUID
     = Return VNone
  /\ decode (CollectionEncoderDecoder [DefaultEncoderDecoder local]) VNone TDecimal
     = Return VNone
  /\ decode (CollectionEncoderDecoder [DefaultEncoderDecoder local]) VNone TStr
     = Return (VStr "None")
  /\ decode (CollectionEncoderDecoder [DefaultEncoderDecoder local]) VNone TBool
     = Return (VBool false)
  /\ (forall E,
        decode (CollectionEncoderDecoder [DefaultEncoderDecoder local]) VNone (TEnum E)
        = Raised ValueError).
Proof.
  split; [|repeat split; try reflexivity].
  - intros obj Hc Hs. destruct obj; try discriminate; try contradiction;
      repeat split; reflexivity.
  - intros E. cbn. unfold DefaultEncoderDecoder_decode. cbn.
    rewrite find_member_None. reflexivity.
Qed.

(** ** Reading, binding and firing write nothing *)

(** X6. Reading an attribute of a proxy, looking up its field dict,
    computing the reactive keys and the value keys, creating a binding and
    firing it leave the heap and the state of the store as they are,
    whether they return or raise. *)
Theorem readers_write_nothing :
  (forall instance name, read_only (getattr_ instance name))
  /\ (forall instance, read_only (get_field_proxy_dict instance))
  /\ (forall keys, read_only (get_reactive_state_id_keys keys))
  /\ (forall keys, read_only (get_value_state_keys keys))
  /\ (forall keys data, read_only (bind_typed_state_change keys data))
  /\ (forall c, read_only (_on_state_change c)).
Proof.
  conjs.
  - apply read_only_getattr_.
  - apply read_only_get_field_proxy_dict.
  - apply read_only_get_reactive_state_id_keys.
  - apply read_only_get_value_state_keys.
  - apply read_only_bind_typed_state_change.
  - apply read_only__on_state_change.
Qed.

(** ** Writing a leaf and reading it back *)

(** X7. A write to a leaf attribute of a proxy that returns has stored
    the encoded value under the state id of the leaf and changed nothing
    else, in the store or in the heap; a read of the same attribute right
    after it is the decoding of that encoded value with the declared type
    of the field, raising what the decoding raises. *)
Theorem write_then_read instance cn ns dct fd psid name field sid nm ty d enc
    value w w' :
  heap w !! instance = Some (ProxyInstance cn ns dct fd psid) ->
  dict_get ns name = Some field ->
  heap w !! field = Some (ProxyField sid nm (Leaf ty) d enc) ->
  setattr_ instance name value w = Ok tt w' ->
  exists x,
    encode enc value = Return x
    /\ w' = World (heap w) (<[sid := x]> (state w))
    /\ getattr_ instance name w'
       = match decode enc x ty with
         | Return v => Ok (OVal v) w'
         | Raised e => Raise e w'
         end.
Proof.
  intros Hi Hn Hf. unfold setattr_, set_value. rewrite Hi, Hn, Hf.
  unfold bind, lift, state_setitem, ret, raise.
  destruct (encode enc value) as [x|e] eqn:He; [|discriminate].
  intros [= <-]. exists x. split; [reflexivity |]. split; [reflexivity |].
  unfold getattr_, get_value. cbn [heap state]. rewrite Hi, Hn, Hf.
  unfold bind, state_getitem, lift, ret, raise. cbn [heap state].
  rewrite Hf. cbn [heap state].
  rewrite lookup_insert_eq. cbn [default from_option]. unfold id.
  destruct (decode enc x ty); reflexivity.
Qed.

Lemma write_then_read_witness :
  exists r w1 w2,
    state_proxy MyData "" (Some IntEncoderDecoder) empty_world = Ok r w1
    /\ setattr_ r "a" (VInt 42) w1 = Ok tt w2
    /\ state w2 = <["MyData__a" := VInt 42]> (state w1)
    /\ getattr_ r "a" w2 = Ok (OVal (VInt 42)) w2.
Proof.
  destruct (state_proxy MyData "" (Some IntEncoderDecoder) empty_world)
    as [r w1|e w1] eqn:H1; [|vm_compute in H1; discriminate].
  destruct (setattr_ r "a" (VInt 42) w1) as [[] w2|e w2] eqn:H2.
  2:{ vm_compute in H1. injection H1 as <- <-. vm_compute in H2. discriminate. }
  exists r, w1, w2. split; [reflexivity |]. split; [exact H2 |].
  assert (Hi : heap w1 !! r
               = Some (ProxyInstance "MyData__Proxy" [("a", 1); ("b", 2)] MyData 0
                                     "MyData")).
  { vm_compute in H1. injection H1 as <- <-. reflexivity. }
  assert (Hf : heap w1 !! 1
               = Some (ProxyField "MyData__a" "a" (Leaf TInt) (Some (VInt 1))
                                  IntEncoderDecoder)).
  { vm_compute in H1. injection H1 as <- <-. reflexivity. }
  destruct (write_then_read r _ _ _ _ _ "a" 1 _ _ _ _ _ (VInt 42) w1 w2
              Hi eq_refl Hf H2) as (x & Hx & Hw & Hget).
  cbn in Hx. injection Hx as <-.
  split; [rewrite Hw; reflexivity | exact Hget].
Defined.

(** The descriptor of a leaf field of the root of a built tree. *)
Lemma root_leaf_lookup leaf_obj sfx h c flds prefix n f ty :
  built leaf_obj sfx h (shape (Dataclass c flds) prefix n) ->
  wf_dataclass (Dataclass c flds) ->
  In f flds -> f_type f = Leaf ty ->
  exists cn nsp fd field,
    h !! pref (shape (Dataclass c flds) prefix n)
    = Some (ProxyInstance cn nsp (Dataclass c flds) fd (node_prefix prefix c))
    /\ dict_get nsp (f_name f) = Some field
    /\ h !! field
       = Some (leaf_obj (node_prefix prefix c +:+ "__" +:+ f_name f) f).
Proof.
  intros Hb Hwf Hf Hty.
  rewrite shape_unfold in Hb |- *. cbv zeta in Hb |- *.
  set (p := node_prefix prefix c) in *.
  set (ts := shape_fields p flds (S n)) in *.
  cbn [built] in Hb. destruct Hb as (Hr & _ & Hkids). apply built_kids in Hkids.
  apply wf_dataclass_unfold in Hwf. destruct Hwf as [Hnd _].
  rewrite namespace_of_nodup in Hr;
    [|exact Hnd | unfold ts; apply shape_fields_length].
  pose proof (namespace_lookup p (f_name f) flds (S n)) as Hlook. fold ts in Hlook.
  rewrite (find_field_In flds f Hnd Hf) in Hlook.
  destruct Hlook as (m' & Hin & _ & _ & Hget).
  rewrite List.Forall_forall in Hkids. specialize (Hkids _ Hin).
  assert (Hkid : shape_field p f m' = PLeaf (p +:+ "__" +:+ f_name f) m' f).
  { unfold shape_field. rewrite Hty. reflexivity. }
  rewrite Hkid in *. cbn [built pref] in Hkids, Hget |- *.
  eexists _, _, _, m'. split; [exact Hr |]. split; [exact Hget | exact Hkids].
Qed.

(** A read of a leaf attribute is the decoding of what the store holds
    under the state id of the leaf. *)
Lemma getattr_leaf_run instance cn ns dct fd psid name field sid nm ty d enc w :
  heap w !! instance = Some (ProxyInstance cn ns dct fd psid) ->
  dict_get ns name = Some field ->
  heap w !! field = Some (ProxyField sid nm (Leaf ty) d enc) ->
  getattr_ instance name w
  = match decode enc (default VNone (state w !! sid)) ty with
    | Return v => Ok (OVal v) w
    | Raised e => Raise e w
    end.
Proof.
  intros Hi Hn Hf. unfold getattr_, get_value. rewrite Hi, Hn, Hf.
  unfold bind, state_getitem, lift, ret, raise. rewrite Hf.
  destruct (decode enc (default VNone (state w !! sid)) ty); reflexivity.
Qed.

(** A write of a leaf attribute stores the encoded value under the state id
    of the leaf, unless the encoding raises. *)
Lemma setattr_leaf_run instance cn ns dct fd psid name field sid nm ty d enc
    value w :
  heap w !! instance = Some (ProxyInstance cn ns dct fd psid) ->
  dict_get ns name = Some field ->
  heap w !! field = Some (ProxyField sid nm ty d enc) ->
  setattr_ instance name value w
  = match encode enc value with
    | Return x => Ok tt (World (heap w) (<[sid := x]> (state w)))
    | Raised e => Raise e w
    end.
Proof.
  intros Hi Hn Hf. unfold setattr_, set_value. rewrite Hi, Hn, Hf.
  unfold bind, lift, state_setitem, ret, raise.
  destruct (encode enc value); reflexivity.
Qed.

(** X8. A value that the codec takes there and back at the declared type
    of a leaf field, written to that attribute of the proxy that
    [state_proxy] made, is read back equal: for a schema with distinct field
    names, a leaf field of the root and such a value (with the default
    codec, every value of the declared type is one), the write returns, the
    read right after it returns, and what is read equals what was written
    by [==]. *)
Theorem typed_write_then_read dc ns oenc w r w1 f ty value :
  wf_dataclass dc ->
  state_proxy dc ns oenc w = Ok r w1 ->
  In f (dc_fields dc) ->
  f_type f = Leaf ty ->
  round_trip (encoder_or_default oenc) value ty ->
  exists w2 v',
    setattr_ r (f_name f) value w1 = Ok tt w2
    /\ getattr_ r (f_name f) w2 = Ok (OVal v') w2
    /\ py_eq v' value = true.
Proof.
  intros Hwf Hsp Hf Hty (raw & v' & He & Hd & Heq).
  pose proof (state_proxy_spec dc ns oenc w) as Hspec. cbv zeta in Hspec.
  rewrite Hsp in Hspec. destruct Hspec as (-> & _ & Hb & _ & _).
  destruct dc as [c flds]. cbn [dc_fields] in Hf.
  destruct (root_leaf_lookup _ _ _ _ _ _ _ f ty Hb Hwf Hf Hty)
    as (cn & nsp & fd & field & Hi & Hn & Hl).
  unfold proxy_leaf in Hl. rewrite Hty in Hl.
  set (key := node_prefix ns c +:+ "__" +:+ f_name f) in *.
  exists (World (heap w1) (<[key := raw]> (state w1))), v'.
  split; [|split; [|exact Heq]].
  - rewrite (setattr_leaf_run _ _ _ _ _ _ _ _ _ _ _ _ _ value w1 Hi Hn Hl), He.
    reflexivity.
  - rewrite (getattr_leaf_run _ _ _ _ _ _ _ _ _ _ _ _ _
                              (World (heap w1) (<[key := raw]> (state w1)))
                              Hi Hn Hl).
    cbn [state]. rewrite lookup_insert_eq. cbn [default from_option]. unfold id.
    rewrite Hd. reflexivity.
Qed.

Lemma DataWithTypes_wf : wf_dataclass DataWithTypes.
Proof. solve_wf. Qed.

Lemma typed_write_then_read_witness :
  exists r w1 w2 v',
    state_proxy DataWithTypes "" None empty_world = Ok r w1
    /\ setattr_ r "my_datetime" (VDatetime a_datetime) w1 = Ok tt w2
    /\ getattr_ r "my_datetime" w2 = Ok (OVal v') w2
    /\ py_eq v' (VDatetime a_datetime) = true.
Proof.
  destruct (state_proxy DataWithTypes "" None empty_world) as [r w1|e w1] eqn:H1;
    [|absurd_raise H1].
  destruct (typed_write_then_read
              DataWithTypes "" None empty_world r w1
              (mkField "my_datetime" (Leaf TDatetime) None None) TDatetime
              (VDatetime a_datetime) DataWithTypes_wf H1)
    as (w2 & v' & Hset & Hget & Heq).
  - cbn. tauto.
  - reflexivity.
  - exists (VStr "2024-03-09T23:30:00.250000+00:00"),
           (VDatetime (Datetime (Date 2024 3 9) (Time 23 30 0 250000 (Some 0%Z)))).
    split; [vm_compute; reflexivity |]. split; vm_compute; reflexivity.
  - exists r, w1, w2, v'. auto.
Defined.

(** ** The two front ends *)

(** X9. [state_names_proxy] always returns; it leaves the state of the
    store as it is and the objects that were in the heap as they are. *)
Theorem state_names_proxy_writes_nothing dc ns w :
  exists name w',
    state_names_proxy dc ns w = Ok name w'
    /\ state w' = state w
    /\ (forall i, i < length (heap w) -> heap w' !! i = heap w !! i).
Proof.
  destruct (state_names_proxy_spec dc ns w) as (w' & Hrun & _ & _ & Hframe & Hstate).
  eexists _, w'. split; [exact Hrun |]. split; assumption.
Qed.


(** ** What is not a proxy, and what is not of the class *)


(** X12. Binding to data that is not a proxy raises [RuntimeError], and so
    does looking up its field dict; the store and the heap are as they
    were. *)
Theorem binder_rejects_non_proxy keys data w :
  match data with
  | ORef r => match heap w !! r with
              | Some (ProxyInstance _ _ _ _ _) => False
              | _ => True
              end
  | OVal _ => True
  end ->
  get_field_proxy_dict data w = Raise RuntimeError w
  /\ bind_typed_state_change keys data w = Raise RuntimeError w.
Proof.
  intros Hno.
  assert (H : get_field_proxy_dict data w = Raise RuntimeError w).
  { unfold get_field_proxy_dict, _get_proxy_dataclass_type_or_raise,
      _get_proxy_dataclass_type, bind.
    destruct data as [v|r]; [reflexivity |].
    destruct (heap w !! r) as [[| | |]|]; try reflexivity. contradiction. }
  split; [exact H |].
  unfold bind_typed_state_change, bind. rewrite H. reflexivity.
Qed.

(** X13. A binding to a string that is no key of the field dict of the
    data is made without complaint: it reacts on that string; it is when
    the binding fires that [KeyError] is raised, in whatever state the
    store is. *)
Theorem unknown_key_raises_when_fired data cn ns dct fd sid items s w :
  heap w !! data = Some (ProxyInstance cn ns dct fd sid) ->
  heap w !! fd = Some (PyDict items) ->
  dict_get items s = None ->
  bind_typed_state_change (KeyOne (str_obj s)) (ORef data) w
  = Ok ([str_obj s], Closure fd [str_obj s]) w
  /\ forall st,
       _on_state_change (Closure fd [str_obj s]) (World (heap w) st)
       = Raise KeyError (World (heap w) st).
Proof.
  intros Hd Hfd Hs. split.
  - unfold bind_typed_state_change, get_field_proxy_dict,
      _get_proxy_dataclass_type_or_raise, _get_proxy_dataclass_type,
      get_value_state_keys, bind, ret.
    rewrite Hd. cbn. rewrite Hd. cbn. reflexivity.
  - intros st. unfold _on_state_change, bind. cbn [list_comp state_id_to_field_dict value_keys].
    unfold bind, dict_getitem, dict_items, bind, str_obj. cbn [heap].
    rewrite Hfd, Hs. reflexivity.
Qed.

(** X14. Keys that are all strings are their own reactive keys and their
    own value keys. *)
Theorem string_keys_are_kept (ss : list string) w :
  get_reactive_state_id_keys (map str_obj ss) w = Ok (map str_obj ss) w
  /\ get_value_state_keys (map str_obj ss) w = Ok (map str_obj ss) w.
Proof.
  split.
  - induction ss as [|s ss IH]; [reflexivity |].
    cbn [map get_reactive_state_id_keys].
    unfold bind, is_proxy_class, _get_proxy_dataclass_type, ret, str_obj in *.
    cbn. rewrite IH. reflexivity.
  - unfold get_value_state_keys.
    induction ss as [|s ss IH]; [reflexivity |].
    cbn [map list_comp]. unfold bind, get_state_id, ret, str_obj in *.
    cbn. rewrite IH. reflexivity.
Qed.


Lemma binder_rejects_non_proxy_witness :
  bind_typed_state_change (KeyOne (str_obj "MyData__a")) (str_obj "MyData")
                          empty_world
  = Raise RuntimeError empty_world.
Proof.
  apply (binder_rejects_non_proxy (KeyOne (str_obj "MyData__a")) (str_obj "MyData")
                                  empty_world I).
Defined.

Lemma unknown_key_raises_when_fired_witness :
  exists r w1,
    state_proxy MyData "" (Some IntEncoderDecoder) empty_world = Ok r w1
    /\ bind_typed_state_change (KeyOne (str_obj "a")) (ORef r) w1
       = Ok ([str_obj "a"], Closure 0 [str_obj "a"]) w1
    /\ _on_state_change (Closure 0 [str_obj "a"]) (World (heap w1) (state w1))
       = Raise KeyError (World (heap w1) (state w1)).
Proof.
  destruct (state_proxy MyData "" (Some IntEncoderDecoder) empty_world)
    as [r w1|e w1] eqn:H1; [|vm_compute in H1; discriminate].
  exists r, w1. split; [reflexivity |].
  assert (Hi : heap w1 !! r
               = Some (ProxyInstance "MyData__Proxy" [("a", 1); ("b", 2)] MyData 0
                                     "MyData")).
  { vm_compute in H1. injection H1 as <- <-. reflexivity. }
  assert (H0 : heap w1 !! 0
               = Some (PyDict [("MyData__a", 1); ("MyData__b", 2); ("MyData", 3)])).
  { vm_compute in H1. injection H1 as <- <-. reflexivity. }
  destruct (unknown_key_raises_when_fired r _ _ _ _ _ _ "a" w1 Hi H0 eq_refl)
    as [Hbind Hfire].
  split; [exact Hbind | apply Hfire].
Defined.

(** ** Reading a proxy back as a dataclass instance *)

Lemma as_dataclass_unfold depth instance w :
  as_dataclass (S depth) instance w
  = (dataclass_type <- _get_proxy_dataclass_type_or_raise (ORef instance) ;;
     kwargs <- as_dataclass_loop (as_dataclass depth) instance
                                 (dc_fields dataclass_type) [] ;;
     lift (dataclass_call dataclass_type kwargs)) w.
Proof. reflexivity. Qed.










Section AsDataclass.
Variable enc : IStateEncoderDecoder.
Variable h : list obj.




End AsDataclass.



(** ** From an instance to the store and back *)









Section StoredBack.
Variable enc : IStateEncoderDecoder.


End StoredBack.



(** ** [from_dataclass] reads every leaf before it writes it *)








Section ReadsFirst.
Variable enc : IStateEncoderDecoder.
Variable h : list obj.



End ReadsFirst.



(** ** What [as_dataclass] never does *)

Lemma read_only_as_dataclass_loop nested instance :
  (forall r, read_only (nested r)) ->
  forall fs kwargs, read_only (as_dataclass_loop nested instance fs kwargs).
Proof.
  intros Hn. induction fs as [|f fs IH]; intros kwargs; [apply read_only_ret |].
  cbn [as_dataclass_loop].
  apply read_only_bind; [apply read_only_getattr_ |]. intros attr.
  apply read_only_bind; [apply read_only_is_proxy_class |]. intros b.
  apply read_only_bind; [|intros v; apply IH].
  destruct b, attr; try apply read_only_ret; try apply read_only_raise; apply Hn.
Qed.

Lemma read_only_as_dataclass depth :
  forall instance, read_only (as_dataclass depth instance).
Proof.
  induction depth as [|depth IH]; intros instance; [apply read_only_raise |].
  intros w. rewrite as_dataclass_unfold. revert w.
  apply read_only_bind; [apply read_only__get_proxy_dataclass_type_or_raise |].
  intros dataclass_type.
  apply read_only_bind; [apply read_only_as_dataclass_loop; exact IH |].
  intros kwargs. apply read_only_lift.
Qed.

(** X18. [as_dataclass] writes nothing: whatever the instance and whether
    it returns or raises, the heap and the store are as they were. On an
    instance that is not a proxy it raises [RuntimeError]. *)
Theorem as_dataclass_writes_nothing depth instance :
  read_only (as_dataclass depth instance)
  /\ forall w,
       match heap w !! instance with
       | Some (ProxyInstance _ _ _ _ _) => False
       | _ => True
       end ->
       as_dataclass depth instance w = Raise RuntimeError w.
Proof.
  split; [apply read_only_as_dataclass |].
  intros w Hno. destruct depth as [|depth]; [reflexivity |].
  rewrite as_dataclass_unfold. unfold bind at 1.
  assert (Hor : _get_proxy_dataclass_type_or_raise (ORef instance) w
                = Raise RuntimeError w).
  { unfold _get_proxy_dataclass_type_or_raise, _get_proxy_dataclass_type, bind.
    destruct (heap w !! instance) as [[| | |]|]; try reflexivity. contradiction. }
  rewrite Hor. reflexivity.
Qed.

(** The descriptor of a leaf is no proxy. *)
Lemma as_dataclass_writes_nothing_witness :
  exists r w1,
    state_proxy MyData "" None empty_world = Ok r w1
    /\ as_dataclass 2 1 w1 = Raise RuntimeError w1.
Proof.
  assert (Hleaf : match heap (result_world
                                (state_proxy MyData "" None empty_world)) !! 1 with
                  | Some (ProxyInstance _ _ _ _ _) => false
                  | _ => true
                  end = true) by (vm_compute; reflexivity).
  destruct (state_proxy MyData "" None empty_world) as [r w1|e w1] eqn:H1;
    [|absurd_raise H1].
  cbn [result_world] in Hleaf.
  exists r, w1. split; [reflexivity |].
  apply (proj2 (as_dataclass_writes_nothing 2 1)).
  destruct (heap w1 !! 1) as [[| | |]|]; try exact I. discriminate Hleaf.
Defined.

(** ** Two proxies over one store *)

(** X19. Two proxies made by [state_proxy] for one schema and namespace
    over one store are views of the same values: for a schema with distinct
    field names and a leaf field of the root, a write through the first
    proxy that returns has stored the value encoded by the codec of the
    first, and a read of the same attribute through the second proxy right
    after it is the decoding of that raw value by the codec of the second
    with the declared type, raising what the decoding raises. *)
Theorem proxies_share_the_store dc ns oenc1 oenc2 w r1 w1 r2 w2 f ty value w3 :
  wf_dataclass dc ->
  state_proxy dc ns oenc1 w = Ok r1 w1 ->
  state_proxy dc ns oenc2 w1 = Ok r2 w2 ->
  In f (dc_fields dc) ->
  f_type f = Leaf ty ->
  setattr_ r1 (f_name f) value w2 = Ok tt w3 ->
  exists x,
    encode (encoder_or_default oenc1) value = Return x
    /\ getattr_ r2 (f_name f) w3
       = match decode (encoder_or_default oenc2) x ty with
         | Return v => Ok (OVal v) w3
         | Raised e => Raise e w3
         end.
Proof.
  intros Hwf Hsp1 Hsp2 Hf Hty Hset.
  pose proof (state_proxy_spec dc ns oenc1 w) as S1. cbv zeta in S1.
  rewrite Hsp1 in S1. destruct S1 as (-> & Hlen & Hb1 & _ & _).
  pose proof (state_proxy_spec dc ns oenc2 w1) as S2. cbv zeta in S2.
  rewrite Hsp2 in S2. destruct S2 as (-> & _ & Hb2 & Hsame & _).
  assert (Hb1' : built (proxy_leaf (encoder_or_default oenc1)) "__Proxy" (heap w2)
                       (shape dc ns (length (heap w)))).
  { eapply built_stable; [|exact Hb1]. intros i Hi. apply Hsame.
    pose proof (shape_range dc ns (length (heap w))) as Hr.
    rewrite List.Forall_forall in Hr. specialize (Hr i Hi). lia. }
  destruct dc as [c flds]. cbn [dc_fields] in Hf.
  destruct (root_leaf_lookup _ _ _ _ _ _ _ f ty Hb1' Hwf Hf Hty)
    as (cn1 & nsp1 & fd1 & field1 & Hi1 & Hn1 & Hl1).
  destruct (root_leaf_lookup _ _ _ _ _ _ _ f ty Hb2 Hwf Hf Hty)
    as (cn2 & nsp2 & fd2 & field2 & Hi2 & Hn2 & Hl2).
  unfold proxy_leaf in Hl1, Hl2. rewrite Hty in Hl1, Hl2.
  set (key := node_prefix ns c +:+ "__" +:+ f_name f) in *.
  rewrite (setattr_leaf_run _ _ _ _ _ _ _ _ _ _ _ _ _ value w2 Hi1 Hn1 Hl1) in Hset.
  destruct (encode (encoder_or_default oenc1) value) as [x|e]; [|discriminate Hset].
  injection Hset as <-. exists x. split; [reflexivity |].
  rewrite (getattr_leaf_run _ _ _ _ _ _ _ _ _ _ _ _ _
                            (World (heap w2) (<[key := x]> (state w2)))
                            Hi2 Hn2 Hl2).
  cbn [state]. rewrite lookup_insert_eq. cbn [default from_option]. unfold id.
  reflexivity.
Qed.

Lemma proxies_share_the_store_witness :
  exists r1 w1 r2 w2 w3,
    state_proxy MyData "" None empty_world = Ok r1 w1
    /\ state_proxy MyData "" None w1 = Ok r2 w2
    /\ r1 <> r2
    /\ setattr_ r1 "a" (VInt 42) w2 = Ok tt w3
    /\ getattr_ r2 "a" w3 = Ok (OVal (VInt 42)) w3.
Proof.
  set (run1 := state_proxy MyData "" None empty_world).
  set (run2 := state_proxy MyData "" None (result_world run1)).
  set (run3 := setattr_ (value_or 0 run1) "a" (VInt 42) (result_world run2)).
  assert (R1 : returned run1 = true) by (vm_compute; reflexivity).
  assert (R2 : returned run2 = true) by (vm_compute; reflexivity).
  assert (R3 : returned run3 = true) by (vm_compute; reflexivity).
  assert (Hne : value_or 0 run1 <> value_or 0 run2) by (vm_compute; discriminate).
  destruct run1 as [r1 w1|e w1] eqn:H1; [|discriminate R1].
  cbn [value_or result_world] in *. subst run2.
  destruct (state_proxy MyData "" None w1) as [r2 w2|e w2] eqn:H2;
    [|discriminate R2].
  cbn [value_or result_world] in *. subst run3.
  destruct (setattr_ r1 "a" (VInt 42) w2) as [[] w3|e w3] eqn:H3;
    [|discriminate R3].
  exists r1, w1, r2, w2, w3.
  split; [first [reflexivity | assumption] |].
  split; [first [reflexivity | assumption] |].
  split; [exact Hne |].
  split; [first [reflexivity | assumption] |].
  destruct (proxies_share_the_store
              MyData "" None None empty_world r1 w1 r2 w2
              (mkField "a" (Leaf TInt) (Some (VInt 1)) None) TInt (VInt 42) w3
              MyData_wf H1 H2) as (x & Hx & Hget).
  - left. reflexivity.
  - reflexivity.
  - exact H3.
  - assert (Ex : x = VInt 42).
    { assert (E : encode default_encoder (VInt 42) = Return (VInt 42))
        by (vm_compute; reflexivity).
      cbn [encoder_or_default] in Hx. rewrite E in Hx. injection Hx as <-.
      reflexivity. }
    subst x. cbn [f_name] in Hget. rewrite Hget.
    assert (Ed : decode (encoder_or_default None) (VInt 42) TInt = Return (VInt 42))
      by (vm_compute; reflexivity).
    rewrite Ed. reflexivity.
Defined.
